(** * The interactive grid of the portfolio page: activation field, pointer
      stimulus, click ripples and the presentation of a cell.

    The component [InteractiveGrid] is embedded once, over an interface of
    the numeric operations it uses, and read through two instances:
    - [R_Number]: JavaScript numbers as exact real numbers (rounding,
      infinities and NaN abstracted away); most theorems are stated here;
    - [Float_Number]: IEEE 754 binary64, the numbers the code runs on; the
      definitions evaluate here, the worked examples are run on it, and
      what rounding decides (the end of a ripple, the end of the decay) is
      proved on it.

    What the exact reals hide of a division by zero is covered apart, by
    leaving the value of such a division open ([R_Number_div]).

    The state update of a frame is embedded twice: applied at once
    ([animate], [run]), and as React schedules it ([animateCall],
    [renderLive], [runLive]), where an update may wait while other events
    happen and reads the ripples when it is called. *)

From Stdlib Require Import Reals Lra Lia ZArith List Bool.
From Stdlib Require String Floats Uint63.
Import SpecFloat FloatOps String.StringSyntax.
Delimit Scope string_scope with string.
Abbreviation float := PrimFloat.float.
Import ListNotations.

Set Implicit Arguments.

(** ** Numbers *)

Declare Scope num_scope.
Delimit Scope num_scope with num.

(** The operations on [number] that the component uses. *)
Class Number (num : Type) : Type := {
  of_Z : Z -> num;                  (* an integer literal *)
  num_add : num -> num -> num;
  num_sub : num -> num -> num;
  num_mul : num -> num -> num;
  num_div : num -> num -> num;
  num_ltb : num -> num -> bool;     (* [a < b] *)
  Math_sqrt : num -> num;
  Math_abs : num -> num;
  Math_floor : num -> num;
  Math_max : num -> num -> num;
  to_index : num -> option nat      (* the array index a number denotes, if any *)
}.

Infix "+" := num_add : num_scope.
Infix "-" := num_sub : num_scope.
Infix "*" := num_mul : num_scope.
Infix "/" := num_div : num_scope.
Infix "<?" := num_ltb : num_scope.
Notation "a >? b" := (num_ltb b a) : num_scope.

Module Real.

Definition ltb (a b : R) : bool := if Rlt_dec a b then true else false.

Definition floor (a : R) : R := IZR (Zfloor a).

Definition to_index (a : R) : option nat :=
  let z := Zfloor a in
  if Req_dec_T (IZR z) a
  then (if (0 <=? z)%Z then Some (Z.to_nat z) else None)
  else None.

End Real.

#[export] Instance R_Number : Number R := {
  of_Z := IZR;
  num_add := Rplus;
  num_sub := Rminus;
  num_mul := Rmult;
  num_div := Rdiv;
  num_ltb := Real.ltb;
  Math_sqrt := sqrt;
  Math_abs := Rabs;
  Math_floor := Real.floor;
  Math_max := Rmax;
  to_index := Real.to_index
}.

Module Binary64.

(** An integer below 2^53 in magnitude as the double of that value. *)
Definition of_Z (z : Z) : float :=
  match z with
  | Z0 => PrimFloat.zero
  | Zpos _ => PrimFloat.of_uint63 (Uint63.of_Z z)
  | Zneg p => PrimFloat.opp (PrimFloat.of_uint63 (Uint63.of_Z (Zpos p)))
  end.

(** [Math.max] of two arguments: NaN if either is NaN, and +0 above -0. *)
Definition max (a b : float) : float :=
  if PrimFloat.is_nan a || PrimFloat.is_nan b then PrimFloat.nan
  else if PrimFloat.ltb a b then b
  else if PrimFloat.ltb b a then a
  else if PrimFloat.is_zero a && PrimFloat.get_sign a then b
  else a.

(** [Math.floor]: the largest integral double not above the argument;
    NaN, the infinities and the zeros are returned as they are. *)
Definition floor (a : float) : float :=
  match Prim2SF a with
  | S754_finite s m e =>
      if (0 <=? e)%Z then a
      else
        let q := (Zpos m / 2 ^ (- e))%Z in
        if (Zpos m mod 2 ^ (- e) =? 0)%Z then a
        else if s then of_Z (- (q + 1)) else of_Z q
  | _ => a
  end.

(** [a[x]]: a double denotes an index when it is a non-negative integer. *)
Definition to_index (a : float) : option nat :=
  match Prim2SF a with
  | S754_zero _ => Some O
  | S754_finite false m e =>
      if (0 <=? e)%Z then Some (Z.to_nat (Zpos m * 2 ^ e))
      else if (Zpos m mod 2 ^ (- e) =? 0)%Z
           then Some (Z.to_nat (Zpos m / 2 ^ (- e)))
           else None
  | _ => None
  end.

End Binary64.

#[export] Instance Float_Number : Number float := {
  of_Z := Binary64.of_Z;
  num_add := PrimFloat.add;
  num_sub := PrimFloat.sub;
  num_mul := PrimFloat.mul;
  num_div := PrimFloat.div;
  num_ltb := PrimFloat.ltb;
  Math_sqrt := PrimFloat.sqrt;
  Math_abs := PrimFloat.abs;
  Math_floor := Binary64.floor;
  Math_max := Binary64.max;
  to_index := Binary64.to_index
}.

(** ** Data *)

(** [interface Ripple]. *)
Module Ripple.
Record t (num : Type) : Type := mk {
  x : num;
  y : num;
  radius : num;
  maxRadius : num;
  opacity : num
}.
Arguments mk {num} _ _ _ _ _.
End Ripple.

(** What [getBoundingClientRect] returns, as far as the component reads it. *)
Module Rect.
Record t (num : Type) : Type := mk {
  left : num;
  top : num;
  width : num;
  height : num
}.
Arguments mk {num} _ _ _ _.
End Rect.

(** The fields of a mouse event the handlers read. *)
Module MouseEvent.
Record t (num : Type) : Type := mk {
  clientX : num;
  clientY : num
}.
Arguments mk {num} _ _.
End MouseEvent.

(** The object held by [mousePosRef]. *)
Module Pos.
Record t (num : Type) : Type := mk {
  x : num;
  y : num
}.
Arguments mk {num} _ _.
End Pos.

(** The mutable state of one [InteractiveGrid]: the [activations] state and
    the contents of [mousePosRef] and [ripplesRef]. *)
Record Grid (num : Type) : Type := mkGrid {
  activations : list num;
  mousePosRef : Pos.t num;
  ripplesRef : list (Ripple.t num)
}.
Arguments mkGrid {num} _ _ _.

(** What a handler returns for a cell. *)
Record CharAndStyle (num : Type) : Type := mkStyle {
  char : option String.string;      (* [None] is [undefined] *)
  opacity : num;
  scale : num
}.
Arguments mkStyle {num} _ _ _.

(** ** The component *)

Definition cols : nat := 28.
Definition rows : nat := 18.
Definition totalCells : nat := cols * rows.
Definition chars : list String.string :=
  ["·"; "•"; "○"; "◉"; "●"]%string.

Section InteractiveGrid.

Context {num : Type} {ops : Number num}.
Local Open Scope num_scope.

Definition of_nat (n : nat) : num := of_Z (Z.of_nat n).

(** The decimal literal [m]e-[e], as the quotient of two integers. *)
Definition decimal (m : Z) (e : nat) : num :=
  of_Z m / of_Z (10 ^ Z.of_nat e).

(** [Math.pow] at a natural exponent. *)
Fixpoint Math_pow (a : num) (n : nat) : num :=
  match n with
  | O => of_Z 1
  | S k => a * Math_pow a k
  end.

(** [a[i] = v] on a copy: inside the array the element is replaced, at
    [a.length] the array grows by one.  (An index beyond the length would
    leave holes; the loop of [animate] writes 0, 1, 2, ... in order and
    never does that.) *)
Fixpoint array_set (a : list num) (i : nat) (v : num) : list num :=
  match a, i with
  | [], O => [v]
  | [], S _ => []
  | _ :: t, O => v :: t
  | h :: t, S j => h :: array_set t j v
  end.

(** [useState(Array.from({ length: totalCells }, () => 0))],
    [useRef({ x: -1000, y: -1000 })] and [useRef([])]. *)
Definition initial : Grid num :=
  mkGrid (repeat (of_Z 0) totalCells)
         (Pos.mk (of_Z (-1000)) (of_Z (-1000)))
         [].

(** [containerRef.current] is [None] when the element is not mounted,
    and otherwise answers [getBoundingClientRect] with [rect]. *)
Definition handleMouseMove (container : option (Rect.t num))
    (e : MouseEvent.t num) (st : Grid num) : Grid num :=
  match container with
  | Some rect =>
      mkGrid (activations st)
             (Pos.mk (MouseEvent.clientX e - Rect.left rect)
                     (MouseEvent.clientY e - Rect.top rect))
             (ripplesRef st)
  | None => st
  end.

Definition handleClick (container : option (Rect.t num))
    (e : MouseEvent.t num) (st : Grid num) : Grid num :=
  match container with
  | Some rect =>
      let x := MouseEvent.clientX e - Rect.left rect in
      let y := MouseEvent.clientY e - Rect.top rect in
      mkGrid (activations st)
             (mousePosRef st)
             (ripplesRef st ++
               [Ripple.mk x y (of_Z 0)
                  (Math_max (Rect.width rect) (Rect.height rect))
                  (of_Z 1)])
  | None => st
  end.

Definition decay : num := decimal 92 2.
Definition maxDistance : num := of_Z 150.
Definition rippleSpeed : num := of_Z 12.
Definition rippleWidth : num := of_Z 60.
Definition rippleFade : num := decimal 2 2.

(** The argument of [.map] in [animate]. *)
Definition expandAndFade (ripple : Ripple.t num) : Ripple.t num :=
  Ripple.mk (Ripple.x ripple)
            (Ripple.y ripple)
            (Ripple.radius ripple + rippleSpeed)
            (Ripple.maxRadius ripple)
            (Ripple.opacity ripple - rippleFade).

(** The argument of [.filter] in [animate]. *)
Definition stillActive (ripple : Ripple.t num) : bool :=
  (Ripple.opacity ripple >? of_Z 0)
  && (Ripple.radius ripple <? Ripple.maxRadius ripple).

Definition updateRipples (ripples : list (Ripple.t num))
    : list (Ripple.t num) :=
  filter stillActive (map expandAndFade ripples).

Definition mouseActivationAt (mouseX mouseY cellX cellY : num) : num :=
  let distance :=
    Math_sqrt (Math_pow (mouseX - cellX) 2 + Math_pow (mouseY - cellY) 2) in
  Math_max (of_Z 0) (of_Z 1 - distance / maxDistance).

(** The body of the inner loop, from the running [rippleActivation] to
    its value after [ripple]. *)
Definition ringStep (cellX cellY : num)
    (rippleActivation : num) (ripple : Ripple.t num) : num :=
  let distToCenter :=
    Math_sqrt (Math_pow (Ripple.x ripple - cellX) 2
               + Math_pow (Ripple.y ripple - cellY) 2) in
  let distFromRing := Math_abs (distToCenter - Ripple.radius ripple) in
  if distFromRing <? rippleWidth then
    let ringActivation :=
      (of_Z 1 - distFromRing / rippleWidth) * Ripple.opacity ripple in
    Math_max rippleActivation ringActivation
  else rippleActivation.

(** [let rippleActivation = 0; for (const ripple of ripplesRef.current)]. *)
Definition rippleActivationAt (ripples : list (Ripple.t num))
    (cellX cellY : num) : num :=
  fold_left (ringStep cellX cellY) ripples (of_Z 0).

Definition cellX (cellWidth : num) (i : nat) : num :=
  let col := Nat.modulo i cols in
  of_nat col * cellWidth + cellWidth / of_Z 2.

Definition cellY (cellHeight : num) (i : nat) : num :=
  let row := Nat.div i cols in
  of_nat row * cellHeight + cellHeight / of_Z 2.

(** The value assigned to [next[i]]; [prev[i]] is read inside the array
    (see [length_activations]), the default is never used. *)
Definition nextActivation (cellWidth cellHeight mouseX mouseY : num)
    (ripples : list (Ripple.t num)) (prev : list num) (i : nat) : num :=
  let mouseActivation :=
    mouseActivationAt mouseX mouseY (cellX cellWidth i) (cellY cellHeight i) in
  let rippleActivation :=
    rippleActivationAt ripples (cellX cellWidth i) (cellY cellHeight i) in
  Math_max (Math_max (nth i prev (of_Z 0) * decay) mouseActivation)
           rippleActivation.

(** The function given to [setActivations]: [next] starts as a copy of
    [prev] and the cells are assigned for [i] from 0 to [totalCells - 1]. *)
Definition updater (cellWidth cellHeight mouseX mouseY : num)
    (ripples : list (Ripple.t num)) (prev : list num) : list num :=
  fold_left
    (fun next i =>
       array_set next i
         (nextActivation cellWidth cellHeight mouseX mouseY ripples prev i))
    (seq 0 totalCells) prev.

(** One call of [animate] (one frame) together with the state update it
    requests, when React applies that update before anything else happens:
    the function given to [setActivations] then runs on the cell sizes and
    pointer coordinates read by this call and on the ripples this call has
    just stored in [ripplesRef].  The code itself only hands the function
    to React; an update that waits while other events happen is the
    subject of [animateCall] and [renderLive] below.  The rescheduling
    through [requestAnimationFrame] is the caller's: every frame calls
    [animate] once. *)
Definition animate (container : option (Rect.t num)) (st : Grid num)
    : Grid num :=
  match container with
  | None => st
  | Some rect =>
      let cellWidth := Rect.width rect / of_nat cols in
      let cellHeight := Rect.height rect / of_nat rows in
      let mouseX := Pos.x (mousePosRef st) in
      let mouseY := Pos.y (mousePosRef st) in
      let ripples := updateRipples (ripplesRef st) in
      mkGrid (updater cellWidth cellHeight mouseX mouseY ripples
                (activations st))
             (mousePosRef st)
             ripples
  end.

Definition getCharAndStyle (activations : list num) (index : nat)
    : CharAndStyle num :=
  let activation := nth index activations (of_Z 0) in
  let charIndex := Math_floor (activation * of_nat (length chars - 1)) in
  let opacity := decimal 12 2 + activation * decimal 88 2 in
  let scale := of_Z 1 + activation * decimal 8 1 in
  mkStyle
    (match to_index (Math_max (of_Z 0) charIndex) with
     | Some k => nth_error chars k
     | None => None
     end)
    opacity scale.

(** *** Runs of the component *)

(** What can happen to a mounted grid; each comes with the state of the
    container at that moment. *)
Inductive Input : Type :=
| MouseMove (e : MouseEvent.t num)
| Click (e : MouseEvent.t num)
| Frame.

Definition react (st : Grid num) (ev : option (Rect.t num) * Input)
    : Grid num :=
  match snd ev with
  | MouseMove e => handleMouseMove (fst ev) e st
  | Click e => handleClick (fst ev) e st
  | Frame => animate (fst ev) st
  end.

Definition run (evs : list (option (Rect.t num) * Input)) (st : Grid num)
    : Grid num :=
  fold_left react evs st.

End InteractiveGrid.

Arguments Input num : clear implicits.

(** * The animation loop and the rendering *)

(** The browser's list of animation frame callbacks, as far as this page
    uses it: the last handle given out, and the handles of the requests
    that wait for the next frame, in the order they will run.  Every
    request of the page carries the same callback, [animate]. *)
Record FrameRequests : Type := mkRequests {
  lastHandle : nat;
  pendingFrames : list nat
}.

(** [requestAnimationFrame(animate)]: handles count up from 1. *)
Definition requestAnimationFrame (b : FrameRequests) : nat * FrameRequests :=
  let handle := S (lastHandle b) in
  (handle, mkRequests handle (pendingFrames b ++ [handle])).

Definition cancelAnimationFrame (handle : nat) (b : FrameRequests)
    : FrameRequests :=
  mkRequests (lastHandle b) (remove Nat.eq_dec handle (pendingFrames b)).

Section Loop.

Context {num : Type} {ops : Number num}.

(** A grid with its [animationRef] ([useRef<number | null>(null)]) and
    the frame requests of the page. *)
Record Mounted : Type := mkMounted {
  grid : Grid num;
  animationRef : option nat;
  requests : FrameRequests
}.

(** [animate] as the browser calls it: both branches end by requesting the
    next frame and storing the handle. *)
Definition animateCallback (container : option (Rect.t num)) (m : Mounted)
    : Mounted :=
  match container with
  | None =>
      let (handle, b) := requestAnimationFrame (requests m) in
      mkMounted (grid m) (Some handle) b
  | Some rect =>
      let g := animate (Some rect) (grid m) in
      let (handle, b) := requestAnimationFrame (requests m) in
      mkMounted g (Some handle) b
  end.

(** The body of the animation effect: the first request. *)
Definition startLoop (m : Mounted) : Mounted :=
  let (handle, b) := requestAnimationFrame (requests m) in
  mkMounted (grid m) (Some handle) b.

(** The cleanup of the animation effect:
    [if (animationRef.current) cancelAnimationFrame(animationRef.current)];
    [null] and 0 are falsy. *)
Definition stopLoop (m : Mounted) : Mounted :=
  match animationRef m with
  | Some (S h) =>
      mkMounted (grid m) (animationRef m)
                (cancelAnimationFrame (S h) (requests m))
  | Some O | None => m
  end.

(** The first render and the first run of the effect, on a page whose
    last handle given out is [handle0] and that has no request waiting. *)
Definition mount (handle0 : nat) : Mounted :=
  startLoop (mkMounted initial None (mkRequests handle0 [])).

(** One frame of the browser: the requests waiting at its start are taken
    off the list and their callbacks run in order; what they request waits
    for the next frame. *)
Definition browserFrame (container : option (Rect.t num)) (m : Mounted)
    : Mounted :=
  fold_left
    (fun m' _ => animateCallback container m')
    (pendingFrames (requests m))
    (mkMounted (grid m) (animationRef m)
               (mkRequests (lastHandle (requests m)) [])).

Definition reactMounted (m : Mounted) (ev : option (Rect.t num) * Input num)
    : Mounted :=
  match snd ev with
  | MouseMove e =>
      mkMounted (handleMouseMove (fst ev) e (grid m))
                (animationRef m) (requests m)
  | Click e =>
      mkMounted (handleClick (fst ev) e (grid m))
                (animationRef m) (requests m)
  | Frame => browserFrame (fst ev) m
  end.

Definition runMounted (evs : list (option (Rect.t num) * Input num))
    (m : Mounted) : Mounted :=
  fold_left reactMounted evs m.

(** The cells [InteractiveGrid] renders: one [span] per index, with the
    symbol, opacity and scale of [getCharAndStyle]. *)
Definition renderCells (st : Grid num) : list (CharAndStyle num) :=
  map (getCharAndStyle (activations st)) (seq 0 totalCells).

(** A mounted frame is the input on which [animate] does its work. *)
Definition isTick (ev : option (Rect.t num) * Input num) : bool :=
  match ev with
  | (Some _, Frame) => true
  | _ => false
  end.

Definition isMove (ev : option (Rect.t num) * Input num) : bool :=
  match ev with
  | (Some _, MouseMove _) => true
  | _ => false
  end.

Definition isClick (ev : option (Rect.t num) * Input num) : bool :=
  match ev with
  | (Some _, Click _) => true
  | _ => false
  end.

End Loop.

Arguments Mounted num : clear implicits.

(** * The state update as React schedules it

    [setActivations] is given a function.  React may call it at once (it
    does so when no update of the component is waiting) or keep it until
    it renders the component again; until then other handlers and further
    calls of [animate] may run.  The function reads [ripplesRef.current]
    when it is called, and the cell sizes and pointer coordinates that
    [animate] had read when it made it. *)

(** What the function given to [setActivations] has captured. *)
Record Update (num : Type) : Type := mkUpdate {
  capturedCellWidth : num;
  capturedCellHeight : num;
  capturedMouseX : num;
  capturedMouseY : num
}.
Arguments mkUpdate {num} _ _ _ _.

(** The grid with the updates React has not applied yet, oldest first.
    In [shown], [activations] is the state as last computed and the two
    refs are current. *)
Record Live (num : Type) : Type := mkLive {
  shown : Grid num;
  pending : list (Update num)
}.
Arguments mkLive {num} _ _.

Section Scheduling.

Context {num : Type} {ops : Number num}.

(** The body of [animate] up to its call of [setActivations]: without a
    container nothing is done; with one, the ripples are replaced in
    [ripplesRef] and the update is handed to React. *)
Definition animateCall (container : option (Rect.t num)) (l : Live num)
    : Live num :=
  match container with
  | None => l
  | Some rect =>
      let cellWidth := Rect.width rect / of_nat cols in
      let cellHeight := Rect.height rect / of_nat rows in
      let mouseX := Pos.x (mousePosRef (shown l)) in
      let mouseY := Pos.y (mousePosRef (shown l)) in
      let ripples := updateRipples (ripplesRef (shown l)) in
      mkLive (mkGrid (activations (shown l)) (mousePosRef (shown l)) ripples)
             (pending l ++ [mkUpdate cellWidth cellHeight mouseX mouseY])
  end%num.

(** React calls a waiting update on the state [prev]; [ripples] is what
    [ripplesRef.current] holds at that moment. *)
Definition callUpdate (ripples : list (Ripple.t num)) (prev : list num)
    (u : Update num) : list num :=
  updater (capturedCellWidth u) (capturedCellHeight u)
          (capturedMouseX u) (capturedMouseY u) ripples prev.

(** React brings the state up to date: the waiting updates are called in
    order, each on the result of the one before. *)
Definition renderLive (l : Live num) : Live num :=
  mkLive
    (mkGrid
       (fold_left (callUpdate (ripplesRef (shown l))) (pending l)
                  (activations (shown l)))
       (mousePosRef (shown l))
       (ripplesRef (shown l)))
    [].

(** What happens to the component: an input of the browser, or React
    applying the waiting updates. *)
Inductive Step : Type :=
| Browser (ev : option (Rect.t num) * Input num)
| Render.

Definition reactLive (l : Live num) (step : Step) : Live num :=
  match step with
  | Browser ev =>
      match snd ev with
      | MouseMove e => mkLive (handleMouseMove (fst ev) e (shown l)) (pending l)
      | Click e => mkLive (handleClick (fst ev) e (shown l)) (pending l)
      | Frame => animateCall (fst ev) l
      end
  | Render => renderLive l
  end.

Definition runLive (steps : list Step) (l : Live num) : Live num :=
  fold_left reactLive steps l.

(** The component as first rendered: no update is waiting. *)
Definition initialLive : Live num := mkLive initial [].

(** The inputs of [run], each frame followed at once by React's render. *)
Definition renderedAtOnce (evs : list (option (Rect.t num) * Input num))
    : list Step :=
  flat_map
    (fun ev => match snd ev with
               | Frame => [Browser ev; Render]
               | _ => [Browser ev]
               end)
    evs.

(** The inputs of the browser among the steps, in order. *)
Definition browserEvents (steps : list Step)
    : list (option (Rect.t num) * Input num) :=
  flat_map
    (fun step => match step with
                 | Browser ev => [ev]
                 | Render => []
                 end)
    steps.

(** Frames on the container [c] alone, in batches: React renders after
    each batch of frames. *)
Definition ticks (c : Rect.t num) (batches : list nat) : list Step :=
  flat_map (fun n => repeat (Browser (Some c, Frame)) n ++ [Render]) batches.

(** The mounted component with its state updates scheduled by React. *)
Record Scheduled : Type := mkScheduled {
  component : Live num;
  frameRef : option nat;
  frameRequests : FrameRequests
}.

(** [animate] as the browser calls it. *)
Definition animateScheduled (container : option (Rect.t num))
    (s : Scheduled) : Scheduled :=
  match container with
  | None =>
      let (handle, b) := requestAnimationFrame (frameRequests s) in
      mkScheduled (component s) (Some handle) b
  | Some rect =>
      let l := animateCall (Some rect) (component s) in
      let (handle, b) := requestAnimationFrame (frameRequests s) in
      mkScheduled l (Some handle) b
  end.

Definition mountScheduled (handle0 : nat) : Scheduled :=
  let (handle, b) := requestAnimationFrame (mkRequests handle0 []) in
  mkScheduled initialLive (Some handle) b.

Definition browserFrameScheduled (container : option (Rect.t num))
    (s : Scheduled) : Scheduled :=
  fold_left
    (fun s' _ => animateScheduled container s')
    (pendingFrames (frameRequests s))
    (mkScheduled (component s) (frameRef s)
                 (mkRequests (lastHandle (frameRequests s)) [])).

Definition reactScheduled (s : Scheduled) (step : Step) : Scheduled :=
  match step with
  | Browser (container, Frame) => browserFrameScheduled container s
  | _ =>
      mkScheduled (reactLive (component s) step)
                  (frameRef s) (frameRequests s)
  end.

Definition runScheduled (steps : list Step) (s : Scheduled) : Scheduled :=
  fold_left reactScheduled steps s.

Definition isRender (step : Step) : bool :=
  match step with
  | Render => true
  | Browser _ => false
  end.

Definition isMoveStep (step : Step) : bool :=
  match step with
  | Browser ev => isMove ev
  | Render => false
  end.

Definition isClickStep (step : Step) : bool :=
  match step with
  | Browser ev => isClick ev
  | Render => false
  end.

End Scheduling.

Arguments Step num : clear implicits.
Arguments Scheduled num : clear implicits.

(** * Numbers whose division by zero is left open *)

(** The exact reals with a division [div] in place of [Rdiv]; [div] is
    meant to agree with [Rdiv] wherever the divisor is not 0. *)
Definition R_Number_div (div : R -> R -> R) : Number R := {|
  of_Z := IZR;
  num_add := Rplus;
  num_sub := Rminus;
  num_mul := Rmult;
  num_div := div;
  num_ltb := Real.ltb;
  Math_sqrt := sqrt;
  Math_abs := Rabs;
  Math_floor := Real.floor;
  Math_max := Rmax;
  to_index := Real.to_index
|}.

(** * Doubles that are not below zero *)

(** +0, a positive finite double or +infinity. *)
Definition nonneg64 (x : spec_float) : Prop :=
  match x with
  | S754_zero false | S754_infinity false | S754_finite false _ _ => True
  | _ => False
  end.

(** A positive finite double or +infinity. *)
Definition positive64 (x : spec_float) : Prop :=
  match x with
  | S754_infinity false | S754_finite false _ _ => True
  | _ => False
  end.

(** The smallest positive double, 2^-1074. *)
Definition tiny64 : float :=
  Eval vm_compute in SF2Prim (S754_finite false 1 (-1074)).

(** Six times the smallest positive double, 6 * 2^-1074: the product of
    this value and 0.92 rounds to the value itself. *)
Definition stall64 : float :=
  Eval vm_compute in SF2Prim (S754_finite false 6 (-1074)).

(** * The page around the grid: the list of projects *)

Module Project.
Record t : Type := mk {
  id : String.string;
  title : String.string;
  category : String.string;
  year : String.string;
  description : String.string
}.
End Project.

Definition projects : list Project.t :=
  [Project.mk "01" "VOID" "Brand Identity" "2024"
     "A complete rebrand for a luxury fashion house, focusing on minimalist aesthetics and timeless elegance.";
   Project.mk "02" "RESONANCE" "Digital Experience" "2024"
     "An immersive web experience for a contemporary art museum, blending art and technology.";
   Project.mk "03" "APEX" "Editorial Design" "2023"
     "Art direction and design for a biannual architecture publication celebrating brutalist structures.";
   Project.mk "04" "SILENT" "Motion Design" "2023"
     "A series of abstract motion pieces exploring the relationship between sound and visual form.";
   Project.mk "05" "FORM" "Typography" "2023"
     "Custom typeface design for a Berlin-based creative agency, balancing geometry and warmth."
  ]%string.

(** The state of [Portfolio]: [useState(false)] and
    [useState<string | null>(null)]. *)
Record PortfolioState : Type := mkPortfolio {
  loaded : bool;
  activeProject : option String.string
}.

Definition portfolioStart : PortfolioState := mkPortfolio false None.

(** What changes the state: the effect that runs after mounting, and the
    pointer entering or leaving the row of a project. *)
Inductive PortfolioInput : Type :=
| Effect
| MouseEnter (project : Project.t)
| MouseLeave (project : Project.t).

Definition portfolioReact (st : PortfolioState) (ev : PortfolioInput)
    : PortfolioState :=
  match ev with
  | Effect => mkPortfolio true (activeProject st)
  | MouseEnter project =>
      mkPortfolio (loaded st) (Some (Project.id project))
  | MouseLeave _ => mkPortfolio (loaded st) None
  end.

(** [activeProject === project.id]. *)
Definition isActive (st : PortfolioState) (project : Project.t) : bool :=
  match activeProject st with
  | Some active => String.eqb active (Project.id project)
  | None => false
  end.

(** The three class names of a project's row that depend on the state. *)
Record ProjectRow : Type := mkRow {
  rowKey : String.string;
  titleClass : String.string;
  arrowClass : String.string;
  descriptionClass : String.string
}.

Definition renderProject (st : PortfolioState) (project : Project.t)
    : ProjectRow :=
  mkRow
    (Project.id project)
    (String.append
       "text-3xl md:text-6xl font-bold tracking-tight transition-all duration-300 "
       (if isActive st project then "translate-x-2 md:translate-x-4" else ""))
    (String.append
       "text-lg transition-all duration-300 "
       (if isActive st project then "translate-x-1 opacity-100"
        else "opacity-20"))
    (String.append
       "overflow-hidden transition-all duration-400 "
       (if isActive st project then "max-h-20 opacity-100 mt-4"
        else "max-h-0 opacity-0"))%string.

Definition renderProjects (st : PortfolioState) : list ProjectRow :=
  map (renderProject st) projects.

(** A row whose description is unfolded. *)
Definition isExpanded (row : ProjectRow) : bool :=
  String.eqb (descriptionClass row)
    "overflow-hidden transition-all duration-400 max-h-20 opacity-100 mt-4".

(** * Ages of ripples *)

Section Ages.

Context {num : Type} {ops : Number num}.

(** The opacity of a ripple [k] advance steps after the click. *)
Definition opacityAfter (k : nat) : num :=
  Nat.iter k (fun opacity => opacity - rippleFade)%num (of_Z 1).

(** Every ripple is between [lo] and 49 advance steps old. *)
Definition ages_from (lo : nat) (ripples : list (Ripple.t num)) : Prop :=
  Forall
    (fun ripple =>
       exists k, (lo <= k < 50)%nat /\ Ripple.opacity ripple = opacityAfter k)
    ripples.

End Ages.

(** * The component over exact real numbers: vocabulary *)

Local Open Scope R_scope.

Abbreviation RGrid := (Grid R).
Abbreviation RRipple := (Ripple.t R).
Abbreviation RRect := (Rect.t R).

(** The quantities the specification of the field simulator names. *)
Module Spec.

Definition euclideanDistance (x1 y1 x2 y2 : R) : R :=
  sqrt ((x1 - x2) ^ 2 + (y1 - y2) ^ 2).

(** The centre of cell [i] of the row-major grid laid evenly over a
    surface of the given size. *)
Definition cellCenterX (w : R) (i : nat) : R :=
  (INR (i mod cols) + 1 / 2) * (w / INR cols).

Definition cellCenterY (h : R) (i : nat) : R :=
  (INR (i / cols) + 1 / 2) * (h / INR rows).

Definition pointerStimulus (distance : R) : R :=
  Rmax 0 (1 - distance / 150).

Definition distanceFromRing (cx cy : R) (ripple : RRipple) : R :=
  Rabs (euclideanDistance cx cy (Ripple.x ripple) (Ripple.y ripple)
        - Ripple.radius ripple).

(** What one ripple contributes at a cell. *)
Definition contribution (cx cy : R) (ripple : RRipple) : R :=
  if Rlt_dec (distanceFromRing cx cy ripple) 60
  then (1 - distanceFromRing cx cy ripple / 60) * Ripple.opacity ripple
  else 0.

End Spec.

Definition unit_interval (a : R) : Prop := 0 <= a <= 1.

(** What a run maintains: one activation in [0,1] per cell, and no ripple
    more opaque than at its creation. *)
Record grid_inv (st : RGrid) : Prop := {
  inv_length : length (activations st) = totalCells;
  inv_unit : Forall unit_interval (activations st);
  inv_opacity : Forall (fun r => Ripple.opacity r <= 1) (ripplesRef st)
}.

(** The largest of the ripples' contributions, 0 when there is none. *)
Definition maxContribution (cx cy : R) (ripples : list RRipple) : R :=
  fold_right Rmax 0 (map (Spec.contribution cx cy) ripples).

(** A ripple after [k] advance steps, were it never removed. *)
Definition aged (k : nat) (ripple : RRipple) : RRipple :=
  Nat.iter k expandAndFade ripple.

(** * The component on binary64: inputs of the worked examples *)

Module Run64.

Definition start : Grid float := initial.

(** A container at the page origin, of the given width and height. *)
Definition surface (w h : Z) : option (Rect.t float) :=
  Some (Rect.mk (of_Z 0) (of_Z 0) (of_Z w) (of_Z h)).

(** A mouse event at integer client coordinates. *)
Definition at_client (x y : Z) : MouseEvent.t float :=
  MouseEvent.mk (of_Z x) (of_Z y).

Definition frames (c : option (Rect.t float)) (k : nat)
    : list (option (Rect.t float) * Input float) :=
  repeat (c, Frame) k.

(** The activation of cell [i] ([activations[i]]). *)
Definition cell (i : nat) (st : Grid float) : float :=
  nth i (activations st) PrimFloat.nan.

(** [k] frames of decay alone, on one activation. *)
Definition fade (k : nat) (a : float) : float :=
  Nat.iter k (fun a => a * decay)%num a.

End Run64.

(** * Whatever the numbers are

    What does not depend on how numbers compute holds for both instances,
    so in particular for the code as it runs on binary64. *)

Section AnyNumber.

Context {num : Type} {ops : Number num}.

Abbreviation event := (option (Rect.t num) * Input num)%type.

(** ** The assignment loop *)

Lemma array_set_app (l1 l2 : list num) (i : nat) (v : num) :
  i = length l1 -> array_set (l1 ++ l2) i v = l1 ++ v :: tl l2.
Proof.
  intros ->; induction l1 as [|h t IH]; cbn.
  - destruct l2; reflexivity.
  - now rewrite IH.
Qed.

Lemma tl_skipn (n : nat) (l : list num) : tl (skipn n l) = skipn (S n) l.
Proof.
  revert l; induction n as [|n IH]; intros [|h t]; cbn; try reflexivity.
  - apply IH.
Qed.

(** Assigning [f i] to cell [i] for [i = 0 .. n-1] rewrites the first [n]
    cells and keeps the rest. *)
Lemma assign_loop (f : nat -> num) (n : nat) (prev : list num) :
  fold_left (fun next i => array_set next i (f i)) (seq 0 n) prev
  = map f (seq 0 n) ++ skipn n prev.
Proof.
  induction n as [|n IH].
  - reflexivity.
  - rewrite seq_S, fold_left_app, IH, map_app; cbn [fold_left map Nat.add].
    rewrite array_set_app by now rewrite length_map, length_seq.
    rewrite tl_skipn, <- app_assoc.
    reflexivity.
Qed.

Lemma updater_map (cw ch mx my : num) (ripples : list (Ripple.t num))
    (prev : list num) :
  length prev = totalCells ->
  updater cw ch mx my ripples prev
  = map (nextActivation cw ch mx my ripples prev) (seq 0 totalCells).
Proof.
  intros Hlen; unfold updater.
  rewrite assign_loop, skipn_all2 by lia.
  apply app_nil_r.
Qed.

Lemma updater_length (cw ch mx my : num) (ripples : list (Ripple.t num))
    (prev : list num) :
  length prev = totalCells ->
  length (updater cw ch mx my ripples prev) = totalCells.
Proof.
  intros Hlen; rewrite updater_map by assumption.
  now rewrite length_map, length_seq.
Qed.

Lemma updater_nth (cw ch mx my : num) (ripples : list (Ripple.t num))
    (prev : list num) (i : nat) (d : num) :
  length prev = totalCells -> (i < totalCells)%nat ->
  nth i (updater cw ch mx my ripples prev) d
  = nextActivation cw ch mx my ripples prev i.
Proof.
  intros Hlen Hi; rewrite updater_map by assumption.
  rewrite (nth_indep _ d (nextActivation cw ch mx my ripples prev 0%nat))
    by now rewrite length_map, length_seq.
  now rewrite map_nth, seq_nth.
Qed.

(** ** Runs *)

Lemma run_cons (ev : event) (evs : list event) (st : Grid num) :
  run (ev :: evs) st = run evs (react st ev).
Proof. reflexivity. Qed.

Lemma run_app (evs1 evs2 : list event) (st : Grid num) :
  run (evs1 ++ evs2) st = run evs2 (run evs1 st).
Proof. apply fold_left_app. Qed.

Lemma run_frames_S (c : Rect.t num) (t : nat) (st : Grid num) :
  run (repeat (Some c, Frame) (S t)) st
  = animate (Some c) (run (repeat (Some c, Frame) t) st).
Proof.
  cbn [repeat]; rewrite repeat_cons, run_app.
  reflexivity.
Qed.

Lemma ripplesRef_frames (c : Rect.t num) (k : nat) (st : Grid num) :
  ripplesRef (run (repeat (Some c, Frame) k) st)
  = Nat.iter k updateRipples (ripplesRef st).
Proof.
  revert st; induction k as [|k IH]; intros st; [reflexivity|].
  cbn [repeat]; rewrite run_cons, IH, Nat.iter_succ_r.
  reflexivity.
Qed.

Lemma length_react (st : Grid num) (ev : event) :
  length (activations st) = totalCells ->
  length (activations (react st ev)) = totalCells.
Proof.
  intros Hst; destruct ev as [[rect|] [e|e|]]; cbn; try exact Hst.
  now apply updater_length.
Qed.

(** The array of activations always has one entry per cell, so [prev[i]]
    and [activations[index]] are read inside it. *)
Lemma length_activations (evs : list event) :
  length (activations (run evs initial)) = totalCells.
Proof.
  assert (H0 : length (activations (initial (num := num))) = totalCells)
    by apply repeat_length.
  revert H0; generalize (initial (num := num)).
  induction evs as [|ev evs IH]; intros st Hst; [exact Hst|].
  rewrite run_cons; apply IH, length_react, Hst.
Qed.

(** ** Ripples grow old *)

Lemma opacityAfter_S (k : nat) :
  opacityAfter (S k) = (opacityAfter k - rippleFade)%num.
Proof. reflexivity. Qed.

Lemma ages_from_weaken (lo lo' : nat) (ripples : list (Ripple.t num)) :
  (lo' <= lo)%nat -> ages_from lo ripples -> ages_from lo' ripples.
Proof.
  intros Hlo; unfold ages_from; apply Forall_impl.
  intros r (k & Hk & Hop); exists k; split; [lia|exact Hop].
Qed.

(** No number of this kind is still positive after 50 subtractions of
    [rippleFade] from 1. *)
Hypothesis fade_out : (opacityAfter 50 >? of_Z 0)%num = false.

Lemma updateRipples_ages (lo : nat) (ripples : list (Ripple.t num)) :
  ages_from lo ripples -> ages_from (S lo) (updateRipples ripples).
Proof.
  unfold ages_from, updateRipples; intros Hall.
  apply Forall_forall; intros r Hr.
  apply filter_In in Hr as [Hin Hact].
  apply in_map_iff in Hin as (r0 & <- & Hin0).
  rewrite Forall_forall in Hall.
  destruct (Hall r0 Hin0) as (k & Hk & Hop).
  unfold stillActive in Hact; apply andb_true_iff in Hact as [Hpos _].
  cbn [expandAndFade Ripple.opacity] in Hpos |- *.
  rewrite Hop, <- opacityAfter_S in Hpos |- *.
  exists (S k); split; [|reflexivity].
  destruct (Nat.eq_dec (S k) 50) as [E|E]; [|lia].
  rewrite E, fade_out in Hpos; discriminate.
Qed.

Lemma react_ages (st : Grid num) (ev : event) :
  ages_from 0 (ripplesRef st) -> ages_from 0 (ripplesRef (react st ev)).
Proof.
  intros Hst; destruct ev as [[rect|] [e|e|]]; cbn; try exact Hst.
  - apply Forall_app; split; [exact Hst|].
    constructor; [|constructor].
    exists 0%nat; split; [lia|reflexivity].
  - apply (ages_from_weaken (lo := 1)); [lia|].
    apply updateRipples_ages, Hst.
Qed.

Lemma run_ages (evs : list event) :
  ages_from 0 (ripplesRef (run evs initial)).
Proof.
  assert (H0 : ages_from 0 (ripplesRef (initial (num := num))))
    by constructor.
  revert H0; generalize (initial (num := num)).
  induction evs as [|ev evs IH]; intros st Hst; [exact Hst|].
  rewrite run_cons; apply IH, react_ages, Hst.
Qed.

Lemma iter_updateRipples_ages (k : nat) (ripples : list (Ripple.t num)) :
  ages_from 0 ripples -> ages_from k (Nat.iter k updateRipples ripples).
Proof.
  intros Hall; induction k as [|k IH]; [exact Hall|].
  cbn [Nat.iter nat_rect]; fold (Nat.iter k updateRipples ripples).
  apply updateRipples_ages, IH.
Qed.

(** After 50 frames without a click no ripple of the past is left. *)
Lemma no_ripple_after_50_frames (evs : list event) (c : Rect.t num) :
  ripplesRef (run (repeat (Some c, Frame) 50) (run evs initial)) = [].
Proof.
  rewrite ripplesRef_frames.
  pose proof (iter_updateRipples_ages 50 (run_ages evs)) as H50.
  destruct (Nat.iter 50 updateRipples _) as [|r rs]; [reflexivity|].
  inversion H50 as [|? ? (k & Hk & _) _]; lia.
Qed.

End AnyNumber.

(** * Updates as React schedules them *)

Section SchedulingFacts.

Context {num : Type} {ops : Number num}.

Lemma updateRipples_length (ripples : list (Ripple.t num)) :
  (length (updateRipples ripples) <= length ripples)%nat.
Proof.
  unfold updateRipples.
  etransitivity; [apply filter_length_le|].
  now rewrite length_map.
Qed.

(** [animate] of the runs above is a frame with React's render right
    after it. *)
Lemma render_after_call (c : option (Rect.t num)) (st : Grid num) :
  renderLive (animateCall c (mkLive st [])) = mkLive (animate c st) [].
Proof.
  destruct c as [rect|]; [reflexivity|].
  destruct st; reflexivity.
Qed.

Lemma runLive_cons (step : Step num) (steps : list (Step num))
    (l : Live num) :
  runLive (step :: steps) l = runLive steps (reactLive l step).
Proof. reflexivity. Qed.

Lemma runLive_app (steps1 steps2 : list (Step num)) (l : Live num) :
  runLive (steps1 ++ steps2) l = runLive steps2 (runLive steps1 l).
Proof. apply fold_left_app. Qed.

Lemma run_rendered_at_once
    (evs : list (option (Rect.t num) * Input num)) (st : Grid num) :
  runLive (renderedAtOnce evs) (mkLive st []) = mkLive (run evs st) [].
Proof.
  revert st; induction evs as [|[c i] evs IH]; intros st; [reflexivity|].
  rewrite run_cons; cbn [renderedAtOnce flat_map snd].
  fold (renderedAtOnce evs).
  destruct i as [e|e|]; cbn [app]; rewrite !runLive_cons.
  - apply IH.
  - apply IH.
  - change (reactLive (reactLive (mkLive st []) (Browser (c, Frame))) Render)
      with (renderLive (animateCall c (mkLive st []))).
    rewrite render_after_call; apply IH.
Qed.

Lemma fold_left_repeat (A B : Type) (f : A -> B -> A) (b : B) (n : nat)
    (a : A) :
  fold_left f (repeat b n) a = Nat.iter n (fun a' => f a' b) a.
Proof.
  revert a; induction n as [|n IH]; intros a; [reflexivity|].
  cbn [repeat fold_left]; rewrite IH.
  exact (eq_sym (Nat.iter_succ_r n A (fun a' => f a' b) a)).
Qed.

Lemma frames_queue (c : Rect.t num) (n : nat) (st : Grid num)
    (queue : list (Update num)) :
  ripplesRef st = [] ->
  runLive (repeat (Browser (Some c, Frame)) n) (mkLive st queue)
  = mkLive st
      (queue ++ repeat (mkUpdate (Rect.width c / of_nat cols)
                                 (Rect.height c / of_nat rows)
                                 (Pos.x (mousePosRef st))
                                 (Pos.y (mousePosRef st)))%num n).
Proof.
  intros Hrip; revert queue; induction n as [|n IH]; intros queue.
  - cbn [repeat]; now rewrite app_nil_r.
  - cbn [repeat]; rewrite runLive_cons.
    change (reactLive (mkLive st queue) (Browser (Some c, Frame)))
      with (animateCall (Some c) (mkLive st queue)).
    unfold animateCall; cbn [shown pending]; rewrite Hrip.
    change (updateRipples []) with (@nil (Ripple.t num)).
    rewrite <- Hrip at 1.
    replace (mkGrid (activations st) (mousePosRef st) (ripplesRef st))
      with st by (destruct st; reflexivity).
    rewrite IH, <- app_assoc; reflexivity.
Qed.

(** Frames alone, whatever the batches in which React applies them: the
    field is the initial one after as many updates as there were frames. *)
Lemma ticks_quiet (c : Rect.t num) (batches : list nat) (st : Grid num) :
  ripplesRef st = [] ->
  runLive (ticks c batches) (mkLive st [])
  = mkLive
      (mkGrid
         (Nat.iter (list_sum batches)
            (updater (Rect.width c / of_nat cols) (Rect.height c / of_nat rows)
                     (Pos.x (mousePosRef st)) (Pos.y (mousePosRef st)) [])%num
            (activations st))
         (mousePosRef st) [])
      [].
Proof.
  intros Hrip; revert st Hrip.
  induction batches as [|n batches IH]; intros st Hrip.
  - cbn [ticks flat_map list_sum fold_right Nat.iter nat_rect runLive fold_left].
    rewrite <- Hrip; destruct st; reflexivity.
  - cbn [ticks flat_map]; fold (ticks c batches).
    rewrite !runLive_app, frames_queue by exact Hrip.
    cbn [app runLive fold_left reactLive renderLive shown pending].
    unfold renderLive; cbn [shown pending].
    rewrite Hrip, fold_left_repeat, IH by reflexivity.
    cbn [activations mousePosRef list_sum fold_right].
    rewrite Nat.add_comm, Nat.iter_add.
    reflexivity.
Qed.

Lemma iter_updater_length (cw ch mx my : num) (t : nat) (field : list num) :
  length field = totalCells ->
  length (Nat.iter t (updater cw ch mx my []) field) = totalCells.
Proof.
  intros Hlen; induction t as [|t IH]; [exact Hlen|].
  cbn [Nat.iter nat_rect]; now apply updater_length.
Qed.

Lemma list_sum_repeat_1 (t : nat) : list_sum (repeat 1%nat t) = t.
Proof.
  induction t as [|t IH]; [reflexivity|].
  change (S (list_sum (repeat 1%nat t)) = S t); now rewrite IH.
Qed.

Lemma browserFrameScheduled_single (c : option (Rect.t num))
    (s : Scheduled num) (h : nat) :
  pendingFrames (frameRequests s) = [h] ->
  browserFrameScheduled c s
  = mkScheduled (animateCall c (component s))
      (Some (S (lastHandle (frameRequests s))))
      (mkRequests (S (lastHandle (frameRequests s)))
                  [S (lastHandle (frameRequests s))]).
Proof.
  intros Hp; unfold browserFrameScheduled; rewrite Hp.
  destruct c; reflexivity.
Qed.

Lemma runScheduled_spec (steps : list (Step num)) (s : Scheduled num)
    (h : nat) :
  frameRef s = Some (S h) ->
  pendingFrames (frameRequests s) = [S h] ->
  exists h',
    frameRef (runScheduled steps s) = Some (S h')
    /\ pendingFrames (frameRequests (runScheduled steps s)) = [S h']
    /\ component (runScheduled steps s) = runLive steps (component s).
Proof.
  revert s h; induction steps as [|step steps IH]; intros s h Href Hp.
  - exists h; now repeat split.
  - change (runScheduled (step :: steps) s)
      with (runScheduled steps (reactScheduled s step)).
    rewrite runLive_cons.
    destruct step as [[c [e|e|]]|].
    + exact (IH (reactScheduled s (Browser (c, MouseMove e))) h Href Hp).
    + exact (IH (reactScheduled s (Browser (c, Click e))) h Href Hp).
    + change (reactScheduled s (Browser (c, Frame)))
        with (browserFrameScheduled c s).
      change (reactLive (component s) (Browser (c, Frame)))
        with (animateCall c (component s)).
      rewrite (browserFrameScheduled_single c s Hp).
      exact (IH (mkScheduled (animateCall c (component s))
                   (Some (S (lastHandle (frameRequests s))))
                   (mkRequests (S (lastHandle (frameRequests s)))
                               [S (lastHandle (frameRequests s))]))
                (lastHandle (frameRequests s)) eq_refl eq_refl).
    + exact (IH (reactScheduled s Render) h Href Hp).
Qed.

(** X2. The loop calls [animate] exactly once per browser frame,
    whenever React applies the state updates: the component that was
    mounted and then driven by pointer moves, clicks, browser frames and
    renders of React is in the state obtained by handling the same steps
    with one call of [animate] for each frame, and one frame request is
    waiting.  When React renders right after every frame, that state is
    the one of [run]. *)
Theorem animation_loop_ticks_once_per_frame
    (handle0 : nat) (steps : list (Step num)) :
  component (runScheduled steps (mountScheduled handle0))
  = runLive steps initialLive
  /\ (exists handle,
        frameRef (runScheduled steps (mountScheduled handle0)) = Some handle
        /\ pendingFrames
             (frameRequests (runScheduled steps (mountScheduled handle0)))
           = [handle])
  /\ forall evs,
       runLive (renderedAtOnce evs) initialLive = mkLive (run evs initial) [].
Proof.
  destruct (runScheduled_spec steps (mountScheduled handle0)
              (h := handle0) eq_refl eq_refl) as (h' & H1 & H2 & H3).
  split; [exact H3|].
  split; [exists (S h'); now split|].
  intros evs; apply run_rendered_at_once.
Qed.

Lemma callUpdate_commutes_with_move (c : option (Rect.t num))
    (e : MouseEvent.t num) (l : Live num) :
  reactLive (reactLive l (Browser (c, MouseMove e))) Render
  = reactLive (reactLive l Render) (Browser (c, MouseMove e)).
Proof. destruct c; reflexivity. Qed.

(** X11. Which step changes which part of the state.  The activations
    change only when React applies updates: no handler and no call of
    [animate] writes them.  The recorded pointer position changes only at
    a pointer move, and a pointer move before React's render does not
    change what the render writes, since a waiting update has captured the
    pointer.  Without a click the list of ripples never gets longer. *)
Theorem inputs_touch_their_own_state :
  (forall (steps : list (Step num)) (l : Live num),
     forallb (fun step => negb (isRender step)) steps = true ->
     activations (shown (runLive steps l)) = activations (shown l))
  /\ (forall (steps : list (Step num)) (l : Live num),
        forallb (fun step => negb (isMoveStep step)) steps = true ->
        mousePosRef (shown (runLive steps l)) = mousePosRef (shown l))
  /\ (forall (c : option (Rect.t num)) (e : MouseEvent.t num) (l : Live num),
        runLive [Browser (c, MouseMove e); Render] l
        = runLive [Render; Browser (c, MouseMove e)] l)
  /\ (forall (steps : list (Step num)) (l : Live num),
        forallb (fun step => negb (isClickStep step)) steps = true ->
        (length (ripplesRef (shown (runLive steps l)))
         <= length (ripplesRef (shown l)))%nat).
Proof.
  split; [|split; [|split]].
  - intros steps; induction steps as [|step steps IH]; intros l Hall;
      [reflexivity|].
    cbn [forallb] in Hall; apply andb_true_iff in Hall as [Hstep Hall].
    rewrite runLive_cons, (IH _ Hall).
    destruct step as [[[rect|] [e|e|]]|]; try reflexivity.
    discriminate Hstep.
  - intros steps; induction steps as [|step steps IH]; intros l Hall;
      [reflexivity|].
    cbn [forallb] in Hall; apply andb_true_iff in Hall as [Hstep Hall].
    rewrite runLive_cons, (IH _ Hall).
    destruct step as [[[rect|] [e|e|]]|]; try reflexivity.
    discriminate Hstep.
  - intros c e l; apply callUpdate_commutes_with_move.
  - intros steps; induction steps as [|step steps IH]; intros l Hall;
      [reflexivity|].
    cbn [forallb] in Hall; apply andb_true_iff in Hall as [Hstep Hall].
    rewrite runLive_cons.
    etransitivity; [apply (IH _ Hall)|].
    destruct step as [[[rect|] [e|e|]]|]; try reflexivity;
      try discriminate Hstep.
    apply updateRipples_length.
Qed.

Lemma refs_react (l : Live num) (st : Grid num)
    (ev : option (Rect.t num) * Input num) :
  mousePosRef (shown l) = mousePosRef st ->
  ripplesRef (shown l) = ripplesRef st ->
  mousePosRef (shown (reactLive l (Browser ev))) = mousePosRef (react st ev)
  /\ ripplesRef (shown (reactLive l (Browser ev))) = ripplesRef (react st ev).
Proof.
  intros Hpos Hrip; destruct ev as [[rect|] [e|e|]];
    cbn [reactLive react fst snd handleMouseMove handleClick animateCall
         animate shown mousePosRef ripplesRef];
    rewrite ?Hpos, ?Hrip; split; reflexivity.
Qed.

(** X13. The two refs do not depend on when React applies the state
    updates: after any steps, the recorded pointer position and the list
    of ripples are those of the run of the browser's inputs alone, in
    which every frame applies its update at once.  Only the activations
    depend on React's schedule. *)
Theorem refs_ignore_schedule (steps : list (Step num)) (l : Live num) :
  mousePosRef (shown (runLive steps l))
  = mousePosRef (run (browserEvents steps) (shown l))
  /\ ripplesRef (shown (runLive steps l))
     = ripplesRef (run (browserEvents steps) (shown l)).
Proof.
  assert (H : forall (st : Grid num) (l' : Live num),
    mousePosRef (shown l') = mousePosRef st ->
    ripplesRef (shown l') = ripplesRef st ->
    mousePosRef (shown (runLive steps l'))
    = mousePosRef (run (browserEvents steps) st)
    /\ ripplesRef (shown (runLive steps l'))
       = ripplesRef (run (browserEvents steps) st)).
  { induction steps as [|step steps IH]; intros st l' Hpos Hrip;
      [now split|].
    rewrite runLive_cons; destruct step as [ev|].
    - change (browserEvents (Browser ev :: steps))
        with (ev :: browserEvents steps).
      rewrite run_cons.
      destruct (refs_react l' st ev Hpos Hrip) as [Hpos' Hrip'].
      now apply IH.
    - change (browserEvents (Render :: steps)) with (browserEvents steps).
      now apply IH. }
  now apply H.
Qed.

End SchedulingFacts.

(** * The component over exact real numbers: theorems *)

(** ** The interface at [R] *)

Lemma ltb_lt (a b : R) : (a <? b)%num = true <-> a < b.
Proof.
  cbn; unfold Real.ltb; destruct (Rlt_dec a b); split; intros; try easy.
Qed.

Lemma ltb_ge (a b : R) : (a <? b)%num = false <-> b <= a.
Proof.
  cbn; unfold Real.ltb; destruct (Rlt_dec a b); split; intros; try easy; lra.
Qed.

Lemma of_nat_INR (n : nat) : of_nat n = INR n.
Proof. unfold of_nat; cbn; symmetry; apply INR_IZR_INZ. Qed.

Lemma decay_R : decay = 92 / 100.
Proof. reflexivity. Qed.

Lemma rippleFade_R : rippleFade = 2 / 100.
Proof. reflexivity. Qed.

Lemma Math_pow_2 (a : R) : Math_pow a 2 = a * a.
Proof. cbn; ring. Qed.

Lemma Rmax_between (lo hi a b : R) :
  lo <= a <= hi -> lo <= b <= hi -> lo <= Rmax a b <= hi.
Proof. intros Ha Hb; unfold Rmax; destruct (Rle_dec a b); lra. Qed.

(** ** Activations stay in the unit interval *)

Lemma mouseActivationAt_unit (mx my cx cy : R) :
  unit_interval (mouseActivationAt mx my cx cy).
Proof.
  unfold mouseActivationAt, unit_interval, maxDistance; cbn -[Math_pow].
  set (d := sqrt _).
  assert (0 <= d) by apply sqrt_pos.
  unfold Rmax; destruct (Rle_dec 0 (1 - d / 150)); lra.
Qed.

Lemma ringActivation_unit (distFromRing op : R) :
  0 <= distFromRing < 60 -> 0 <= op <= 1 ->
  unit_interval ((1 - distFromRing / 60) * op).
Proof.
  intros Hd Ho; unfold unit_interval.
  assert (0 < 1 - distFromRing / 60 <= 1) by lra.
  split; nra.
Qed.

Lemma rippleActivationAt_unit (ripples : list RRipple) (cx cy : R) :
  Forall (fun r => 0 <= Ripple.opacity r <= 1) ripples ->
  unit_interval (rippleActivationAt ripples cx cy).
Proof.
  unfold rippleActivationAt.
  assert (H0 : unit_interval (of_Z 0)) by (cbn; unfold unit_interval; lra).
  revert H0; generalize (of_Z (num := R) 0).
  induction ripples as [|r rs IH]; intros acc Hacc Hall; cbn [fold_left].
  - exact Hacc.
  - inversion Hall as [|? ? Hr Hrs]; subst.
    apply IH; [|exact Hrs].
    unfold ringStep.
    destruct (_ <? rippleWidth)%num eqn:Hring; [|exact Hacc].
    apply ltb_lt in Hring; unfold rippleWidth in Hring; cbn in Hring.
    unfold rippleWidth; cbn -[Math_pow].
    apply Rmax_between; [exact Hacc|].
    apply ringActivation_unit; [|exact Hr].
    split; [apply Rabs_pos|exact Hring].
Qed.

Lemma nextActivation_unit (cw ch mx my : R) (ripples : list RRipple)
    (prev : list R) (i : nat) :
  Forall unit_interval prev ->
  Forall (fun r => 0 <= Ripple.opacity r <= 1) ripples ->
  unit_interval (nextActivation cw ch mx my ripples prev i).
Proof.
  intros Hprev Hrip; unfold nextActivation.
  assert (Hp : unit_interval (nth i prev 0)).
  { destruct (Nat.lt_ge_cases i (length prev)) as [Hi|Hi].
    - rewrite Forall_forall in Hprev; apply Hprev, nth_In, Hi.
    - rewrite nth_overflow by exact Hi; unfold unit_interval; lra. }
  cbn [Math_max R_Number of_Z num_mul].
  rewrite decay_R.
  apply Rmax_between; [apply Rmax_between|].
  - unfold unit_interval in Hp; lra.
  - apply mouseActivationAt_unit.
  - now apply rippleActivationAt_unit.
Qed.

Lemma stillActive_spec (r : RRipple) :
  stillActive r = true
  <-> 0 < Ripple.opacity r /\ Ripple.radius r < Ripple.maxRadius r.
Proof.
  unfold stillActive; rewrite andb_true_iff, !ltb_lt; reflexivity.
Qed.

Lemma updateRipples_opacity (ripples : list RRipple) :
  Forall (fun r => Ripple.opacity r <= 1) ripples ->
  Forall (fun r => 0 < Ripple.opacity r <= 1) (updateRipples ripples).
Proof.
  intros Hall; unfold updateRipples.
  apply Forall_forall; intros r Hr.
  apply filter_In in Hr as [Hin Hact].
  apply stillActive_spec in Hact as [Hpos _].
  apply in_map_iff in Hin as (r0 & <- & Hin0).
  rewrite Forall_forall in Hall; specialize (Hall r0 Hin0).
  unfold expandAndFade in *; cbn [Ripple.opacity num_sub R_Number] in *.
  rewrite rippleFade_R in *; lra.
Qed.

Lemma grid_inv_initial : grid_inv initial.
Proof.
  split; unfold initial; cbn [activations ripplesRef].
  - apply repeat_length.
  - apply Forall_forall; intros a Ha; apply repeat_spec in Ha; subst.
    unfold unit_interval; cbn; lra.
  - constructor.
Qed.

Lemma grid_inv_react (st : RGrid) (ev : option RRect * Input R) :
  grid_inv st -> grid_inv (react st ev).
Proof.
  intros [Hlen Hunit Hop]; destruct ev as [[rect|] [e|e|]];
    unfold react; cbn [fst snd handleMouseMove handleClick animate];
    try (split; assumption).
  - split; cbn; try assumption.
    apply Forall_app; split; [assumption|].
    constructor; [cbn; lra|constructor].
  - pose proof (updateRipples_opacity Hop) as Hact.
    split; cbn [activations ripplesRef].
    + now apply updater_length.
    + rewrite updater_map by assumption.
      apply Forall_forall; intros a Ha.
      apply in_map_iff in Ha as (i & <- & _).
      apply nextActivation_unit; [assumption|].
      eapply Forall_impl; [|exact Hact]; cbn; intros; lra.
    + eapply Forall_impl; [|exact Hact]; cbn; intros; lra.
Qed.

Lemma grid_inv_run (evs : list (option RRect * Input R)) (st : RGrid) :
  grid_inv st -> grid_inv (run evs st).
Proof.
  revert st; induction evs as [|ev evs IH]; intros st Hst; cbn.
  - exact Hst.
  - apply IH, grid_inv_react, Hst.
Qed.

(** C1. Starting from the all-zero field, after any sequence of pointer
    moves, clicks and frames, whatever the container reported at each of
    them, every cell's activation is in [0,1].  [animate] applies no clamp
    after [Math.max]: the bound comes from the three combined values. *)
Theorem activations_in_unit_interval
    (evs : list (option RRect * Input R)) :
  Forall (fun a => 0 <= a <= 1) (activations (run evs initial)).
Proof.
  exact (inv_unit (grid_inv_run evs grid_inv_initial)).
Qed.

(** The same under any schedule of React: a waiting update may be called
    after later clicks and frames, on the ripples of that moment, which
    are never more opaque than at their creation nor faded out. *)
Lemma callUpdates_unit (ripples : list RRipple) (queue : list (Update R))
    (prev : list R) :
  Forall (fun r => 0 < Ripple.opacity r <= 1) ripples ->
  length prev = totalCells ->
  Forall unit_interval prev ->
  length (fold_left (callUpdate ripples) queue prev) = totalCells
  /\ Forall unit_interval (fold_left (callUpdate ripples) queue prev).
Proof.
  intros Hrip; revert prev.
  induction queue as [|u queue IH]; intros prev Hlen Hunit; [now split|].
  cbn [fold_left]; apply IH.
  - now apply updater_length.
  - unfold callUpdate; rewrite updater_map by assumption.
    apply Forall_forall; intros a Ha.
    apply in_map_iff in Ha as (i & <- & _).
    apply nextActivation_unit; [assumption|].
    eapply Forall_impl; [|exact Hrip]; cbn; intros; lra.
Qed.

Lemma live_inv_react (l : Live R) (step : Step R) :
  length (activations (shown l)) = totalCells ->
  Forall unit_interval (activations (shown l)) ->
  Forall (fun r => 0 < Ripple.opacity r <= 1) (ripplesRef (shown l)) ->
  length (activations (shown (reactLive l step))) = totalCells
  /\ Forall unit_interval (activations (shown (reactLive l step)))
  /\ Forall (fun r => 0 < Ripple.opacity r <= 1)
        (ripplesRef (shown (reactLive l step))).
Proof.
  intros Hlen Hunit Hop; destruct step as [[[rect|] [e|e|]]|];
    cbn [reactLive fst snd handleMouseMove handleClick animateCall renderLive
         shown activations ripplesRef];
    try (repeat split; assumption).
  - repeat split; try assumption.
    apply Forall_app; split; [assumption|].
    constructor; [cbn; lra|constructor].
  - repeat split; try assumption.
    apply updateRipples_opacity.
    eapply Forall_impl; [|exact Hop]; cbn; intros; lra.
  - destruct (@callUpdates_unit _ (pending l) _ Hop Hlen Hunit)
      as [Hlen' Hunit'].
    repeat split; assumption.
Qed.

(** X14. Starting from the all-zero field, every cell's activation is in
    [0,1] after any pointer moves, clicks, frames and renders of React,
    whenever React applies the state updates of the frames. *)
Theorem scheduled_activations_in_unit_interval (steps : list (Step R)) :
  Forall (fun a => 0 <= a <= 1)
    (activations (shown (runLive steps initialLive))).
Proof.
  assert (H : forall l : Live R,
    length (activations (shown l)) = totalCells ->
    Forall unit_interval (activations (shown l)) ->
    Forall (fun r => 0 < Ripple.opacity r <= 1) (ripplesRef (shown l)) ->
    Forall unit_interval (activations (shown (runLive steps l)))).
  { induction steps as [|step steps IH]; intros l Hlen Hunit Hop;
      [exact Hunit|].
    rewrite runLive_cons.
    destruct (@live_inv_react l step Hlen Hunit Hop)
      as (Hlen' & Hunit' & Hop').
    now apply IH. }
  destruct grid_inv_initial as [Hlen Hunit _].
  apply H; [exact Hlen|exact Hunit|constructor].
Qed.

(** ** One tick, cell by cell *)

Lemma cellX_center (w : R) (i : nat) :
  cellX (w / of_nat cols) i = Spec.cellCenterX w i.
Proof.
  unfold cellX, Spec.cellCenterX; rewrite !of_nat_INR; cbn -[INR cols Nat.modulo].
  lra.
Qed.

Lemma cellY_center (h : R) (i : nat) :
  cellY (h / of_nat rows) i = Spec.cellCenterY h i.
Proof.
  unfold cellY, Spec.cellCenterY; rewrite !of_nat_INR; cbn -[INR rows Nat.div].
  lra.
Qed.

Lemma mouseActivationAt_spec (mx my cx cy : R) :
  mouseActivationAt mx my cx cy
  = Spec.pointerStimulus (Spec.euclideanDistance cx cy mx my).
Proof.
  unfold mouseActivationAt, Spec.pointerStimulus, Spec.euclideanDistance.
  rewrite !Math_pow_2; cbn.
  do 4 f_equal; ring.
Qed.

Lemma pointerStimulus_at_0 : Spec.pointerStimulus 0 = 1.
Proof.
  unfold Spec.pointerStimulus, Rmax; destruct (Rle_dec 0 (1 - 0 / 150)); lra.
Qed.

Lemma pointerStimulus_nonneg (d : R) : 0 <= Spec.pointerStimulus d.
Proof. apply Rmax_l. Qed.

Lemma pointerStimulus_far (d : R) : 150 <= d -> Spec.pointerStimulus d = 0.
Proof.
  intros Hd; unfold Spec.pointerStimulus, Rmax.
  destruct (Rle_dec 0 (1 - d / 150)); lra.
Qed.

Lemma pointerStimulus_linear (d : R) :
  0 <= d <= 150 -> Spec.pointerStimulus d = 1 - d / 150.
Proof.
  intros Hd; unfold Spec.pointerStimulus, Rmax.
  destruct (Rle_dec 0 (1 - d / 150)); lra.
Qed.

(** The new activation of a cell, in the specification's terms. *)
Lemma animate_cell (rect : RRect) (st : RGrid) (i : nat) :
  length (activations st) = totalCells ->
  (i < totalCells)%nat ->
  let cx := Spec.cellCenterX (Rect.width rect) i in
  let cy := Spec.cellCenterY (Rect.height rect) i in
  nth i (activations (animate (Some rect) st)) 0
  = Rmax (nth i (activations st) 0 * 0.92)
      (Rmax (Spec.pointerStimulus
               (Spec.euclideanDistance cx cy
                  (Pos.x (mousePosRef st)) (Pos.y (mousePosRef st))))
            (rippleActivationAt (updateRipples (ripplesRef st)) cx cy)).
Proof.
  intros Hlen Hi cx cy.
  unfold animate; cbn [activations ripplesRef].
  rewrite updater_nth by assumption.
  unfold nextActivation.
  rewrite cellX_center, cellY_center, mouseActivationAt_spec.
  fold cx cy.
  cbn [Math_max R_Number of_Z num_mul]; rewrite decay_R.
  rewrite <- Rmax_assoc; f_equal; lra.
Qed.

(** ** The ripple stimulus *)

Lemma distFromRing_spec (cx cy : R) (ripple : RRipple) :
  Math_abs
    (Math_sqrt (Math_pow (Ripple.x ripple - cx)%num 2
                + Math_pow (Ripple.y ripple - cy)%num 2)
     - Ripple.radius ripple)%num
  = Spec.distanceFromRing cx cy ripple.
Proof.
  unfold Spec.distanceFromRing, Spec.euclideanDistance.
  rewrite !Math_pow_2; cbn.
  do 3 f_equal; ring.
Qed.

Lemma contribution_nonneg (cx cy : R) (ripple : RRipple) :
  0 <= Ripple.opacity ripple -> 0 <= Spec.contribution cx cy ripple.
Proof.
  intros Hop; unfold Spec.contribution.
  destruct (Rlt_dec _ 60) as [Hring|_]; [|lra].
  assert (0 <= 1 - Spec.distanceFromRing cx cy ripple / 60) by lra.
  nra.
Qed.

Lemma ringStep_spec (cx cy acc : R) (ripple : RRipple) :
  0 <= acc ->
  ringStep cx cy acc ripple = Rmax acc (Spec.contribution cx cy ripple).
Proof.
  intros Hacc; unfold ringStep; cbv zeta.
  rewrite distFromRing_spec; unfold Spec.contribution, rippleWidth.
  cbn [num_ltb R_Number of_Z num_mul num_sub num_div Math_max].
  unfold Real.ltb.
  destruct (Rlt_dec (Spec.distanceFromRing cx cy ripple) 60); [reflexivity|].
  rewrite Rmax_left; [reflexivity|exact Hacc].
Qed.

(** The loop over the ripples, started at any non-negative value. *)
Lemma ripple_loop_max (cx cy : R) (ripples : list RRipple) (acc : R) :
  0 <= acc ->
  fold_left (ringStep cx cy) ripples acc
  = Rmax acc (maxContribution cx cy ripples).
Proof.
  revert acc; induction ripples as [|r rs IH]; intros acc Hacc;
    cbn [fold_left]; unfold maxContribution; cbn [map fold_right].
  - rewrite Rmax_left; [reflexivity|exact Hacc].
  - fold (maxContribution cx cy rs).
    rewrite ringStep_spec, Rmax_assoc by exact Hacc.
    apply IH.
    etransitivity; [exact Hacc|apply Rmax_l].
Qed.

Lemma rippleActivationAt_max (cx cy : R) (ripples : list RRipple) :
  rippleActivationAt ripples cx cy = maxContribution cx cy ripples.
Proof.
  unfold rippleActivationAt.
  rewrite ripple_loop_max by (cbn; lra).
  apply Rmax_right.
  unfold maxContribution; cbn.
  induction ripples as [|r rs IH]; cbn; [lra|].
  etransitivity; [exact IH|apply Rmax_r].
Qed.

Lemma maxContribution_upper (cx cy : R) (ripples : list RRipple)
    (r : RRipple) :
  In r ripples -> Spec.contribution cx cy r <= maxContribution cx cy ripples.
Proof.
  unfold maxContribution.
  induction ripples as [|r0 rs IH]; cbn; [easy|].
  intros [->|Hin].
  - apply Rmax_l.
  - etransitivity; [apply IH, Hin|apply Rmax_r].
Qed.

Lemma maxContribution_attained (cx cy : R) (ripples : list RRipple) :
  Forall (fun r => 0 <= Ripple.opacity r) ripples ->
  ripples <> [] ->
  exists r, In r ripples
            /\ maxContribution cx cy ripples = Spec.contribution cx cy r.
Proof.
  unfold maxContribution.
  induction ripples as [|r0 rs IH]; intros Hall Hne; [easy|].
  inversion Hall as [|? ? Hr0 Hrs]; subst; cbn [map fold_right].
  destruct rs as [|r1 rs'].
  - exists r0; split; [now left|]; cbn.
    apply Rmax_left, contribution_nonneg, Hr0.
  - destruct (IH Hrs) as (r & Hin & Hmax); [easy|].
    unfold Rmax at 1; destruct (Rle_dec _ _).
    + exists r; split; [now right|exact Hmax].
    + exists r0; split; [now left|reflexivity].
Qed.

(** C3. For a cell centred at [(cx, cy)] and any list of active ripples
    (which have a positive opacity), the value the inner loop of [animate]
    computes is the maximum of the ripples' contributions: it bounds every
    contribution, is the contribution of one of the ripples when there is
    one, and is 0 when there is none.  A ripple contributes
    [(1 - distanceFromRing / 60) * opacity] when its ring is less than 60
    away and 0 otherwise.  The contributions are combined by maximum (the
    equation with [fold_right Rmax]), never added. *)
Theorem ripple_stimulus_is_maximum (cx cy : R) (ripples : list RRipple) :
  Forall (fun r => 0 < Ripple.opacity r) ripples ->
  let stimulus := rippleActivationAt ripples cx cy in
  stimulus = fold_right Rmax 0 (map (Spec.contribution cx cy) ripples)
  /\ (forall r, In r ripples -> Spec.contribution cx cy r <= stimulus)
  /\ (ripples <> [] ->
      exists r, In r ripples /\ stimulus = Spec.contribution cx cy r)
  /\ (ripples = [] -> stimulus = 0).
Proof.
  intros Hall stimulus; unfold stimulus.
  rewrite rippleActivationAt_max.
  split; [reflexivity|].
  split; [intros r; apply maxContribution_upper|].
  split.
  - apply maxContribution_attained.
    eapply Forall_impl; [|exact Hall]; cbn; intros; lra.
  - intros ->; reflexivity.
Qed.

(** Two rings around the origin, seen from the cell centred at (5, 5). *)
Lemma ripple_stimulus_is_maximum_witness :
  Forall (fun r : RRipple => 0 < Ripple.opacity r)
    [Ripple.mk 0 0 12 280 0.98; Ripple.mk 0 0 24 280 0.96]
  /\ rippleActivationAt
       [Ripple.mk 0 0 12 280 0.98; Ripple.mk 0 0 24 280 0.96] 5 5
     = fold_right Rmax 0
         (map (Spec.contribution 5 5)
            [Ripple.mk 0 0 12 280 0.98; Ripple.mk 0 0 24 280 0.96]).
Proof.
  assert (H : Forall (fun r : RRipple => 0 < Ripple.opacity r)
                [Ripple.mk 0 0 12 280 0.98; Ripple.mk 0 0 24 280 0.96])
    by (repeat constructor; cbn; lra).
  split; [exact H|].
  exact (proj1 (ripple_stimulus_is_maximum 5 5 H)).
Defined.

(** ** Cell centres and distances *)

Lemma INR_cols : INR cols = 28.
Proof. unfold cols; cbn; lra. Qed.

Lemma INR_rows : INR rows = 18.
Proof. unfold rows; cbn; lra. Qed.

Lemma cellCenterX_nonneg (w : R) (i : nat) :
  0 <= w -> 0 <= Spec.cellCenterX w i.
Proof.
  intros Hw; unfold Spec.cellCenterX; rewrite INR_cols.
  pose proof (pos_INR (i mod cols)).
  apply Rmult_le_pos; lra.
Qed.

Lemma cellCenterY_nonneg (h : R) (i : nat) :
  0 <= h -> 0 <= Spec.cellCenterY h i.
Proof.
  intros Hh; unfold Spec.cellCenterY; rewrite INR_rows.
  pose proof (pos_INR (i / cols)).
  apply Rmult_le_pos; lra.
Qed.

Lemma cellCenterX_0 (i : nat) : Spec.cellCenterX 0 i = 0.
Proof. unfold Spec.cellCenterX; rewrite INR_cols; lra. Qed.

Lemma cellCenterY_0 (i : nat) : Spec.cellCenterY 0 i = 0.
Proof. unfold Spec.cellCenterY; rewrite INR_rows; lra. Qed.

Lemma euclideanDistance_nonneg (x1 y1 x2 y2 : R) :
  0 <= Spec.euclideanDistance x1 y1 x2 y2.
Proof. apply sqrt_pos. Qed.

(** A distance is at least the horizontal offset. *)
Lemma euclideanDistance_ge_dx (x1 y1 x2 y2 : R) :
  Rabs (x1 - x2) <= Spec.euclideanDistance x1 y1 x2 y2.
Proof.
  unfold Spec.euclideanDistance.
  rewrite <- sqrt_Rsqr_abs.
  apply sqrt_le_1_alt; unfold Rsqr.
  pose proof (pow2_ge_0 (y1 - y2)); lra.
Qed.

(** A distance along one axis. *)
Lemma euclideanDistance_vertical (x y1 y2 : R) :
  y2 <= y1 -> Spec.euclideanDistance x y1 x y2 = y1 - y2.
Proof.
  intros Hy; unfold Spec.euclideanDistance.
  apply sqrt_lem_1; [|lra|ring].
  pose proof (pow2_ge_0 (x - x)); pose proof (pow2_ge_0 (y1 - y2)); lra.
Qed.

(** ** One tick, in the specification's terms *)

(** The state update of a tick, cell by cell: the cell sizes are those of
    [rect], the pointer and the ripples are whatever the tick reads. *)
Lemma callUpdate_cell (rect : RRect) (mouseX mouseY : R)
    (ripples : list RRipple) (prev : list R) (i : nat) :
  length prev = totalCells ->
  (i < totalCells)%nat ->
  let cx := Spec.cellCenterX (Rect.width rect) i in
  let cy := Spec.cellCenterY (Rect.height rect) i in
  nth i (callUpdate ripples prev
           (mkUpdate (Rect.width rect / of_nat cols)
                     (Rect.height rect / of_nat rows) mouseX mouseY)%num) 0
  = Rmax (nth i prev 0 * 0.92)
      (Rmax (Spec.pointerStimulus (Spec.euclideanDistance cx cy mouseX mouseY))
            (fold_right Rmax 0 (map (Spec.contribution cx cy) ripples))).
Proof.
  intros Hlen Hi cx cy.
  unfold callUpdate; cbn [capturedCellWidth capturedCellHeight capturedMouseX
                          capturedMouseY].
  rewrite updater_nth by assumption.
  unfold nextActivation.
  rewrite cellX_center, cellY_center, mouseActivationAt_spec,
    rippleActivationAt_max.
  fold cx cy; unfold maxContribution.
  cbn [Math_max R_Number of_Z num_mul]; rewrite decay_R.
  rewrite <- Rmax_assoc; f_equal; lra.
Qed.

(** C2. One tick sets the activation of every cell [i] to the maximum of
    its previous activation times 0.92, the pointer stimulus
    [max(0, 1 - distance / 150)] at the Euclidean distance between the
    cell's centre and the pointer, and the ripple stimulus, the largest
    contribution of a ripple: this is what the function given to
    [setActivations] computes, for every previous field, every surface,
    every pointer position that [animate] has read and every list of
    ripples that [ripplesRef] holds when React calls it.  So the new value
    is never below the decayed previous one.  The pointer stimulus is 1 at
    distance 0, 0 from distance 150 on, and linear in between.  A frame on
    a mounted container hands React exactly this update, and React's
    render calls the updates that wait, in order. *)
Theorem tick_cell_activation (rect : RRect) (mouseX mouseY : R)
    (ripples : list RRipple) (previousField : list R) (i : nat) :
  length previousField = totalCells ->
  (i < totalCells)%nat ->
  let cx := Spec.cellCenterX (Rect.width rect) i in
  let cy := Spec.cellCenterY (Rect.height rect) i in
  let pointerStimulus :=
    Rmax 0 (1 - Spec.euclideanDistance cx cy mouseX mouseY / 150) in
  let rippleStimulus :=
    fold_right Rmax 0 (map (Spec.contribution cx cy) ripples) in
  let tick :=
    mkUpdate (Rect.width rect / of_nat cols)%num
             (Rect.height rect / of_nat rows)%num mouseX mouseY in
  let newField := callUpdate ripples previousField tick in
  nth i newField 0
  = Rmax (nth i previousField 0 * 0.92) (Rmax pointerStimulus rippleStimulus)
  /\ nth i previousField 0 * 0.92 <= nth i newField 0
  /\ Spec.pointerStimulus 0 = 1
  /\ (forall d, 150 <= d -> Spec.pointerStimulus d = 0)
  /\ (forall d, 0 <= d <= 150 -> Spec.pointerStimulus d = 1 - d / 150)
  /\ (forall l : Live R,
        mousePosRef (shown l) = Pos.mk mouseX mouseY ->
        pending (animateCall (Some rect) l) = pending l ++ [tick])
  /\ (forall l : Live R,
        activations (shown (renderLive l))
        = fold_left (callUpdate (ripplesRef (shown l))) (pending l)
                    (activations (shown l))).
Proof.
  intros Hlen Hi cx cy pointerStimulus rippleStimulus tick newField.
  pose proof (callUpdate_cell rect mouseX mouseY ripples previousField
                Hlen Hi) as Hnew.
  split; [exact Hnew|].
  split; [unfold newField, tick; rewrite Hnew; apply Rmax_l|].
  split; [exact pointerStimulus_at_0|].
  split; [exact pointerStimulus_far|].
  split; [exact pointerStimulus_linear|].
  split; [|reflexivity].
  intros l Hpos; cbn [animateCall pending]; rewrite Hpos; reflexivity.
Qed.

(** A half-lit grid on a surface of 280 by 180, the pointer at (5, -7),
    12 above the centre (5, 5) of cell 0, and a ring of radius 12 and
    opacity 0.98 around the surface's corner: the decayed activation is
    0.46, the pointer stimulus 0.92 and the ring contributes less than
    0.915, so the cell is set to 0.92. *)
Lemma tick_cell_activation_witness :
  length (repeat 0.5 totalCells) = totalCells
  /\ (0 < totalCells)%nat
  /\ nth 0 (callUpdate [Ripple.mk 0 0 12 280 0.98] (repeat 0.5 totalCells)
              (mkUpdate (280 / of_nat cols)%num (180 / of_nat rows)%num
                        5 (-7))) 0
     = 0.92.
Proof.
  assert (Hlen : length (repeat 0.5 totalCells) = totalCells)
    by apply repeat_length.
  assert (Hi : (0 < totalCells)%nat) by (unfold totalCells, cols, rows; lia).
  split; [exact Hlen|].
  split; [exact Hi|].
  pose proof (proj1 (tick_cell_activation (Rect.mk 0 0 280 180) 5 (-7)
                       [Ripple.mk 0 0 12 280 0.98] (repeat 0.5 totalCells)
                       Hlen Hi)) as Hnew.
  cbn [Rect.width Rect.height] in Hnew; rewrite Hnew.
  assert (Hcx : Spec.cellCenterX 280 0 = 5)
    by (unfold Spec.cellCenterX; rewrite INR_cols; cbn; lra).
  assert (Hcy : Spec.cellCenterY 180 0 = 5)
    by (unfold Spec.cellCenterY; rewrite INR_rows; cbn; lra).
  rewrite Hcx, Hcy, nth_repeat_lt by exact Hi.
  rewrite euclideanDistance_vertical by lra.
  cbn [map fold_right].
  unfold Spec.contribution, Spec.distanceFromRing;
    cbn [Ripple.x Ripple.y Ripple.radius Ripple.opacity].
  pose proof (euclideanDistance_nonneg 5 5 0 0) as Hd0.
  assert (Hdd : Spec.euclideanDistance 5 5 0 0
                * Spec.euclideanDistance 5 5 0 0 = 50).
  { unfold Spec.euclideanDistance; rewrite sqrt_sqrt; lra. }
  assert (Hd : 7 <= Spec.euclideanDistance 5 5 0 0 <= 8) by nra.
  rewrite Rabs_left by lra.
  destruct (Rlt_dec (- (Spec.euclideanDistance 5 5 0 0 - 12)) 60); [|lra].
  unfold Rmax; repeat destruct (Rle_dec _ _); lra.
Defined.

(** ** Ripples: creation, ageing, removal *)

Lemma aged_S (k : nat) (ripple : RRipple) :
  aged (S k) ripple = expandAndFade (aged k ripple).
Proof. reflexivity. Qed.

Lemma aged_fields (k : nat) (ripple : RRipple) :
  aged k ripple
  = Ripple.mk (Ripple.x ripple) (Ripple.y ripple)
              (Ripple.radius ripple + 12 * INR k)
              (Ripple.maxRadius ripple)
              (Ripple.opacity ripple - 0.02 * INR k).
Proof.
  induction k as [|k IH].
  - destruct ripple; cbn; f_equal; lra.
  - rewrite aged_S, IH, S_INR; unfold expandAndFade.
    cbn [Ripple.x Ripple.y Ripple.radius Ripple.maxRadius Ripple.opacity
         num_add num_sub R_Number].
    rewrite rippleFade_R; unfold rippleSpeed; cbn [of_Z R_Number].
    f_equal; lra.
Qed.

Lemma stillActive_false (r : RRipple) :
  stillActive r = false
  <-> Ripple.opacity r <= 0 \/ Ripple.maxRadius r <= Ripple.radius r.
Proof.
  unfold stillActive; rewrite andb_false_iff, !ltb_ge; reflexivity.
Qed.

(** Ageing only lowers the opacity and raises the radius: a ripple that
    fails the filter fails it at every later step. *)
Lemma stillActive_aged_antitone (k k' : nat) (ripple : RRipple) :
  (k <= k')%nat ->
  stillActive (aged k ripple) = false -> stillActive (aged k' ripple) = false.
Proof.
  intros Hk; rewrite !stillActive_false, !aged_fields; cbn.
  apply le_INR in Hk; intros [H|H]; [left|right]; lra.
Qed.

Lemma updateRipples_app (l1 l2 : list RRipple) :
  updateRipples (l1 ++ l2) = updateRipples l1 ++ updateRipples l2.
Proof. unfold updateRipples; now rewrite map_app, filter_app. Qed.

Lemma iter_updateRipples_app (k : nat) (l1 l2 : list RRipple) :
  Nat.iter k updateRipples (l1 ++ l2)
  = Nat.iter k updateRipples l1 ++ Nat.iter k updateRipples l2.
Proof.
  induction k as [|k IH]; [reflexivity|].
  cbn [Nat.iter nat_rect]; fold (Nat.iter k updateRipples (l1 ++ l2)).
  fold (Nat.iter k updateRipples l1) (Nat.iter k updateRipples l2).
  now rewrite IH, updateRipples_app.
Qed.

Lemma iter_updateRipples_nil (k : nat) :
  Nat.iter k updateRipples (@nil RRipple) = [].
Proof.
  induction k as [|k IH]; [reflexivity|].
  cbn [Nat.iter nat_rect]; fold (Nat.iter k updateRipples (@nil RRipple)).
  now rewrite IH.
Qed.

(** One ripple through [k >= 1] frames: it is in the list, aged [k] times,
    as long as it passes the filter, and gone from then on. *)
Lemma iter_updateRipples_single (k : nat) (ripple : RRipple) :
  Nat.iter (S k) updateRipples [ripple]
  = if stillActive (aged (S k) ripple) then [aged (S k) ripple] else [].
Proof.
  induction k as [|k IH].
  - cbn [Nat.iter nat_rect]; unfold updateRipples; cbn [map filter].
    reflexivity.
  - change (Nat.iter (S (S k)) updateRipples [ripple])
      with (updateRipples (Nat.iter (S k) updateRipples [ripple])).
    rewrite IH.
    destruct (stillActive (aged (S k) ripple)) eqn:Hk.
    + unfold updateRipples; cbn [map filter]; rewrite <- aged_S.
      reflexivity.
    + rewrite (stillActive_aged_antitone (k := S k) (k' := S (S k)))
        by (try exact Hk; lia).
      reflexivity.
Qed.

(** C4. A click at client position [e] on a mounted container [rect]
    appends exactly one ripple, at the surface-local position of the click,
    with radius 0, opacity 1 and maxRadius [max(width, height)].  Advanced
    [k] times it has radius [12 k] and opacity [1 - 0.02 k].  A frame
    replaces the ripples by their advanced versions that pass the filter;
    so after [k >= 1] frames the ripple is present, aged [k] times, exactly
    if it still has opacity > 0 and radius < maxRadius, it fails that
    exactly when opacity <= 0 or radius >= maxRadius, and once it has
    failed it fails at every later step: it does not come back. *)
Theorem click_ripple_lifecycle (rect : RRect) (e : MouseEvent.t R)
    (st : RGrid) :
  let x := MouseEvent.clientX e - Rect.left rect in
  let y := MouseEvent.clientY e - Rect.top rect in
  let maxRadius := Rmax (Rect.width rect) (Rect.height rect) in
  let ripple := Ripple.mk x y 0 maxRadius 1 in
  ripplesRef (handleClick (Some rect) e st) = ripplesRef st ++ [ripple]
  /\ (forall k,
        aged k ripple = Ripple.mk x y (12 * INR k) maxRadius (1 - 0.02 * INR k))
  /\ (forall c st0,
        ripplesRef (animate (Some c) st0) = updateRipples (ripplesRef st0))
  /\ (forall k,
        Nat.iter (S k) updateRipples (ripplesRef st ++ [ripple])
        = Nat.iter (S k) updateRipples (ripplesRef st)
          ++ (if stillActive (aged (S k) ripple)
              then [aged (S k) ripple] else []))
  /\ (forall k,
        stillActive (aged k ripple) = false
        <-> 1 - 0.02 * INR k <= 0 \/ maxRadius <= 12 * INR k)
  /\ (forall k k', (k <= k')%nat ->
        stillActive (aged k ripple) = false ->
        stillActive (aged k' ripple) = false).
Proof.
  intros x y maxRadius ripple.
  assert (Haged : forall k,
    aged k ripple = Ripple.mk x y (12 * INR k) maxRadius (1 - 0.02 * INR k)).
  { intros k; rewrite aged_fields; cbn; f_equal; lra. }
  split; [reflexivity|].
  split; [exact Haged|].
  split; [reflexivity|].
  split.
  { intros k; rewrite iter_updateRipples_app, iter_updateRipples_single.
    reflexivity. }
  split.
  - intros k; rewrite stillActive_false, Haged; cbn; reflexivity.
  - intros k k'; apply stillActive_aged_antitone.
Qed.

(** ** No ripple outlives 50 frames *)

Lemma opacityAfter_R (k : nat) : opacityAfter k = 1 - 0.02 * INR k.
Proof.
  induction k as [|k IH]; [cbn; lra|].
  rewrite opacityAfter_S, IH, S_INR, rippleFade_R; cbn [num_sub R_Number].
  lra.
Qed.

Lemma fade_out_R : (opacityAfter (num := R) 50 >? of_Z 0)%num = false.
Proof.
  rewrite ltb_ge, opacityAfter_R.
  replace (INR 50) with 50 by (cbn; lra).
  cbn; lra.
Qed.

(** Fifty rounded subtractions of the double nearest 0.02 from 1 end at
    -0x1.64p-51, below 0. *)
Lemma fade_out_binary64 :
  (opacityAfter (num := float) 50 >? of_Z 0)%num = false.
Proof. vm_compute. reflexivity. Qed.

(** C10. Whatever happened to the grid before, 50 frames on a mounted
    container, with no click among them, leave no ripple: a ripple starts
    with opacity 1, loses 0.02 per frame and is filtered out as soon as its
    opacity is not positive, which is the case after 50 frames at the
    latest, whatever its maxRadius.  This holds over the exact reals, where
    the opacity is then exactly 0, and on binary64, where it has become
    negative.  On a surface wider than 588 pixels a ripple does last 49
    frames ([ripple_lasts_49_frames]). *)
Theorem ripples_gone_after_50_frames :
  (forall (evs : list (option RRect * Input R)) (c : RRect),
     ripplesRef (run (repeat (Some c, Frame) 50) (run evs initial)) = [])
  /\ (forall (evs : list (option (Rect.t float) * Input float))
             (c : Rect.t float),
        ripplesRef (run (repeat (Some c, Frame) 50) (run evs initial)) = []).
Proof.
  split; intros evs c.
  - apply no_ripple_after_50_frames, fade_out_R.
  - apply no_ripple_after_50_frames, fade_out_binary64.
Qed.

(** The bound is reached: a click on a surface of 600 by 400 pixels leaves
    a ripple that is still there after 49 frames. *)
Lemma ripple_lasts_49_frames :
  let c := Rect.mk 0 0 600 400 in
  ripplesRef
    (run ((Some c, Click (MouseEvent.mk 300 200)) :: repeat (Some c, Frame) 49)
         initial)
  = [Ripple.mk 300 200 588 600 (1 - 0.02 * 49)].
Proof.
  intros c; rewrite run_cons, ripplesRef_frames.
  cbn [react snd fst handleClick ripplesRef initial app].
  rewrite iter_updateRipples_single.
  rewrite aged_fields.
  cbn [Ripple.x Ripple.y Ripple.radius Ripple.maxRadius Ripple.opacity
       MouseEvent.clientX MouseEvent.clientY Rect.left Rect.top Rect.width
       Rect.height c num_sub Math_max of_Z R_Number].
  replace (INR 49) with 49 by (cbn; lra).
  replace (Rmax 600 400) with 600 by (symmetry; apply Rmax_left; lra).
  replace (300 - 0) with 300 by lra.
  replace (200 - 0) with 200 by lra.
  replace (0 + 12 * 49) with 588 by lra.
  replace (stillActive _) with true; [reflexivity|].
  symmetry; apply stillActive_spec; cbn; lra.
Qed.

(** ** The pointer *)

Lemma pointerStimulus_zero_iff (d : R) :
  Spec.pointerStimulus d = 0 <-> 150 <= d.
Proof.
  unfold Spec.pointerStimulus, Rmax.
  destruct (Rle_dec 0 (1 - d / 150)); split; intros; lra.
Qed.

Lemma rippleActivationAt_nil (cx cy : R) : rippleActivationAt [] cx cy = 0.
Proof. reflexivity. Qed.

Lemma updateRipples_nil : updateRipples (@nil RRipple) = [].
Proof. reflexivity. Qed.

Lemma nth_initial (i : nat) : nth i (activations (initial (num := R))) 0 = 0.
Proof.
  unfold initial; cbn [activations of_Z R_Number].
  destruct (Nat.lt_ge_cases i totalCells) as [Hi|Hi].
  - apply nth_repeat_lt; exact Hi.
  - apply nth_overflow; rewrite repeat_length; exact Hi.
Qed.

Lemma totalCells_pos : (0 < totalCells)%nat.
Proof. unfold totalCells, cols, rows; lia. Qed.

(** The claim C5 fails: on a surface of 280 by 180 pixels at the origin, a
    pointer move to (5, -7), above the surface, is recorded as it is and
    not as the initial (-1000, -1000); on the next frame cell 0, centred at
    (5, 5) and so 12 pixels away, gets the pointer stimulus 0.92. *)
Lemma pointer_above_surface_is_recorded :
  MouseEvent.clientY (MouseEvent.mk 5 (-7)) - Rect.top (Rect.mk 0 0 280 180) < 0
  /\ mousePosRef
       (handleMouseMove (Some (Rect.mk 0 0 280 180)) (MouseEvent.mk 5 (-7))
          initial)
     <> Pos.mk (-1000) (-1000)
  /\ mouseActivationAt 5 (-7) (cellX (280 / of_nat cols) 0)
       (cellY (180 / of_nat rows) 0) = 0.92
  /\ nth 0 (activations
              (animate (Some (Rect.mk 0 0 280 180))
                 (handleMouseMove (Some (Rect.mk 0 0 280 180))
                    (MouseEvent.mk 5 (-7)) initial))) 0 = 0.92.
Proof.
  assert (Hcx : Spec.cellCenterX 280 0 = 5)
    by (unfold Spec.cellCenterX; rewrite INR_cols; cbn; lra).
  assert (Hcy : Spec.cellCenterY 180 0 = 5)
    by (unfold Spec.cellCenterY; rewrite INR_rows; cbn; lra).
  assert (Hstim : Spec.pointerStimulus
                    (Spec.euclideanDistance 5 5 5 (-7)) = 0.92).
  { rewrite euclideanDistance_vertical by lra.
    rewrite pointerStimulus_linear; lra. }
  split; [cbn; lra|].
  split.
  { cbn; intros H; injection H as Hx Hy; lra. }
  split.
  { rewrite cellX_center, cellY_center, mouseActivationAt_spec, Hcx, Hcy.
    exact Hstim. }
  rewrite animate_cell;
    [|cbn [handleMouseMove activations initial]; apply repeat_length
     |apply totalCells_pos].
  cbn [handleMouseMove activations mousePosRef ripplesRef initial
       Rect.width Rect.height Rect.left Rect.top Pos.x Pos.y
       MouseEvent.clientX MouseEvent.clientY num_sub R_Number].
  rewrite Hcx, Hcy, updateRipples_nil, rippleActivationAt_nil.
  replace (5 - 0) with 5 by lra.
  replace (-7 - 0) with (-7) by lra.
  rewrite Hstim.
  replace (nth 0 (repeat (of_Z 0) totalCells) 0) with 0
    by (symmetry; apply (nth_initial 0)).
  unfold Rmax; repeat destruct (Rle_dec _ _); lra.
Qed.

Lemma sentinel_far (w h : R) (i : nat) :
  0 <= w -> 0 <= h ->
  150 <= Spec.euclideanDistance (Spec.cellCenterX w i) (Spec.cellCenterY h i)
           (-1000) (-1000).
Proof.
  intros Hw Hh.
  pose proof (cellCenterX_nonneg i Hw).
  pose proof (euclideanDistance_ge_dx
                (Spec.cellCenterX w i) (Spec.cellCenterY h i) (-1000) (-1000)).
  pose proof (Rle_abs (Spec.cellCenterX w i - -1000)).
  lra.
Qed.

(** C5, amended. A pointer move on a mounted container records the
    surface-local coordinate [(clientX - left, clientY - top)] itself, also
    when it is negative or beyond the surface; (-1000, -1000) is only the
    initial pointer state.  On the following tick a cell gets pointer
    stimulus 0 exactly when its centre is at least 150 away from the
    recorded pointer; with the initial pointer state, no cell of a surface
    of non-negative width and height gets any. *)
Theorem pointer_move_records_coordinates :
  (forall (rect : RRect) (e : MouseEvent.t R) (st : RGrid),
     mousePosRef (handleMouseMove (Some rect) e st)
     = Pos.mk (MouseEvent.clientX e - Rect.left rect)
              (MouseEvent.clientY e - Rect.top rect))
  /\ mousePosRef (initial (num := R)) = Pos.mk (-1000) (-1000)
  /\ (forall (rect : RRect) (mx my : R) (i : nat),
        mouseActivationAt mx my
          (cellX (Rect.width rect / of_nat cols) i)
          (cellY (Rect.height rect / of_nat rows) i) = 0
        <-> 150 <= Spec.euclideanDistance
                     (Spec.cellCenterX (Rect.width rect) i)
                     (Spec.cellCenterY (Rect.height rect) i) mx my)
  /\ (forall (rect : RRect) (i : nat),
        0 <= Rect.width rect -> 0 <= Rect.height rect ->
        mouseActivationAt (-1000) (-1000)
          (cellX (Rect.width rect / of_nat cols) i)
          (cellY (Rect.height rect / of_nat rows) i) = 0).
Proof.
  split; [reflexivity|].
  split; [reflexivity|].
  split.
  - intros rect mx my i.
    rewrite cellX_center, cellY_center, mouseActivationAt_spec.
    apply pointerStimulus_zero_iff.
  - intros rect i Hw Hh.
    rewrite cellX_center, cellY_center, mouseActivationAt_spec.
    apply pointerStimulus_zero_iff, sentinel_far; assumption.
Qed.

(** ** A surface without extent *)

(** The claim C6 fails: on a container that reports width 0 and height 0
    the frames are not skipped.  All cell centres are (0, 0); a pointer move
    to the container's corner (0, 0) raises the activation of cell 0 from 0
    to 1 on the next frame, and after a pointer move to (1000, 1000) the
    frame after it applies the decay, to 0.92. *)
Lemma zero_size_surface_is_not_skipped :
  Rect.width (Rect.mk 0 0 0 0) = 0
  /\ Rect.height (Rect.mk 0 0 0 0) = 0
  /\ nth 0 (activations
              (run [(Some (Rect.mk 0 0 0 0), MouseMove (MouseEvent.mk 0 0))]
                 initial)) 0 = 0
  /\ nth 0 (activations
              (run [(Some (Rect.mk 0 0 0 0), MouseMove (MouseEvent.mk 0 0));
                    (Some (Rect.mk 0 0 0 0), Frame)]
                 initial)) 0 = 1
  /\ nth 0 (activations
              (run [(Some (Rect.mk 0 0 0 0), MouseMove (MouseEvent.mk 0 0));
                    (Some (Rect.mk 0 0 0 0), Frame);
                    (Some (Rect.mk 0 0 0 0),
                     MouseMove (MouseEvent.mk 1000 1000));
                    (Some (Rect.mk 0 0 0 0), Frame)]
                 initial)) 0 = 0.92.
Proof.
  set (c := Rect.mk 0 0 0 0).
  set (s1 := handleMouseMove (Some c) (MouseEvent.mk 0 0) initial).
  set (s2 := animate (Some c) s1).
  set (s3 := handleMouseMove (Some c) (MouseEvent.mk 1000 1000) s2).
  assert (Hlen1 : length (activations s1) = totalCells) by apply repeat_length.
  assert (Hlen3 : length (activations s3) = totalCells)
    by (apply updater_length, Hlen1).
  assert (H1 : nth 0 (activations s1) 0 = 0) by apply (nth_initial 0).
  assert (H2 : nth 0 (activations s2) 0 = 1).
  { unfold s2; rewrite animate_cell by (exact Hlen1 || apply totalCells_pos).
    rewrite H1, cellCenterX_0, cellCenterY_0.
    cbn [s1 handleMouseMove mousePosRef ripplesRef initial Pos.x Pos.y
         MouseEvent.clientX MouseEvent.clientY Rect.left Rect.top c
         num_sub R_Number].
    rewrite updateRipples_nil, rippleActivationAt_nil.
    replace (0 - 0) with 0 by lra.
    rewrite euclideanDistance_vertical, pointerStimulus_linear by lra.
    unfold Rmax; repeat destruct (Rle_dec _ _); lra. }
  split; [reflexivity|].
  split; [reflexivity|].
  split; [exact H1|].
  split; [exact H2|].
  change (nth 0 (activations (animate (Some c) s3)) 0 = 0.92).
  rewrite animate_cell by (exact Hlen3 || apply totalCells_pos).
  change (activations s3) with (activations s2); rewrite H2.
  rewrite cellCenterX_0, cellCenterY_0.
  cbn [s3 s2 s1 handleMouseMove animate mousePosRef ripplesRef initial
       Pos.x Pos.y MouseEvent.clientX MouseEvent.clientY Rect.left Rect.top c
       num_sub R_Number].
  rewrite !updateRipples_nil, rippleActivationAt_nil.
  rewrite pointerStimulus_far.
  - unfold Rmax; repeat destruct (Rle_dec _ _); lra.
  - pose proof (euclideanDistance_ge_dx 0 0 (1000 - 0) (1000 - 0)) as Hd.
    pose proof (Rle_abs (- (0 - (1000 - 0)))) as Ha.
    rewrite Rabs_Ropp in Ha.
    lra.
Qed.

(** *** No result depends on a division by zero *)

Section DivisionByZero.

Variable div : R -> R -> R.
Hypothesis div_agrees : forall a b, b <> 0 -> div a b = a / b.

Let ops' : Number R := R_Number_div div.

Lemma fold_left_ext_in (A B : Type) (f g : A -> B -> A) (l : list B) (a : A) :
  (forall x y, f x y = g x y) -> fold_left f l a = fold_left g l a.
Proof.
  intros Hfg; revert a; induction l as [|y l IH]; intros a; [reflexivity|].
  cbn; rewrite Hfg; apply IH.
Qed.

Lemma decimal_div (m : Z) (e : nat) :
  decimal (ops := ops') m e = decimal (ops := R_Number) m e.
Proof.
  unfold decimal; cbn; apply div_agrees.
  apply not_0_IZR.
  pose proof (Z.pow_pos_nonneg 10 (Z.of_nat e)); lia.
Qed.

Lemma expandAndFade_div (r : RRipple) :
  expandAndFade (ops := ops') r = expandAndFade (ops := R_Number) r.
Proof.
  unfold expandAndFade, rippleFade; cbn [num_add num_sub ops' R_Number_div
                                         R_Number].
  now rewrite decimal_div.
Qed.

Lemma updateRipples_div (ripples : list RRipple) :
  updateRipples (ops := ops') ripples
  = updateRipples (ops := R_Number) ripples.
Proof.
  unfold updateRipples.
  rewrite (map_ext _ _ expandAndFade_div).
  reflexivity.
Qed.

Lemma mouseActivationAt_div (mx my cx cy : R) :
  mouseActivationAt (ops := ops') mx my cx cy
  = mouseActivationAt (ops := R_Number) mx my cx cy.
Proof.
  unfold mouseActivationAt, maxDistance.
  cbn [num_div ops' R_Number_div R_Number of_Z].
  rewrite div_agrees by lra.
  reflexivity.
Qed.

Lemma ringStep_div (cx cy acc : R) (r : RRipple) :
  ringStep (ops := ops') cx cy acc r = ringStep (ops := R_Number) cx cy acc r.
Proof.
  unfold ringStep, rippleWidth.
  cbn [num_div ops' R_Number_div R_Number of_Z].
  rewrite div_agrees by lra.
  reflexivity.
Qed.

Lemma rippleActivationAt_div (ripples : list RRipple) (cx cy : R) :
  rippleActivationAt (ops := ops') ripples cx cy
  = rippleActivationAt (ops := R_Number) ripples cx cy.
Proof.
  unfold rippleActivationAt.
  apply fold_left_ext_in, ringStep_div.
Qed.

Lemma cellX_div (cw : R) (i : nat) :
  cellX (ops := ops') cw i = cellX (ops := R_Number) cw i.
Proof.
  unfold cellX; cbn [num_div ops' R_Number_div R_Number of_Z].
  rewrite div_agrees by lra.
  reflexivity.
Qed.

Lemma cellY_div (ch : R) (i : nat) :
  cellY (ops := ops') ch i = cellY (ops := R_Number) ch i.
Proof.
  unfold cellY; cbn [num_div ops' R_Number_div R_Number of_Z].
  rewrite div_agrees by lra.
  reflexivity.
Qed.

Lemma nextActivation_div (cw ch mx my : R) (ripples : list RRipple)
    (prev : list R) (i : nat) :
  nextActivation (ops := ops') cw ch mx my ripples prev i
  = nextActivation (ops := R_Number) cw ch mx my ripples prev i.
Proof.
  unfold nextActivation, decay.
  rewrite cellX_div, cellY_div, mouseActivationAt_div,
    rippleActivationAt_div, decimal_div.
  reflexivity.
Qed.

Lemma updater_div (cw ch mx my : R) (ripples : list RRipple)
    (prev : list R) :
  updater (ops := ops') cw ch mx my ripples prev
  = updater (ops := R_Number) cw ch mx my ripples prev.
Proof.
  unfold updater.
  apply fold_left_ext_in; intros next i.
  now rewrite nextActivation_div.
Qed.

Lemma cell_size_div (a : R) (n : nat) :
  (0 < n)%nat ->
  num_div (Number := ops') a (of_nat (ops := ops') n) = a / INR n.
Proof.
  intros Hn; cbn [num_div ops' R_Number_div].
  change (of_nat (ops := ops') n) with (of_nat (ops := R_Number) n).
  rewrite of_nat_INR.
  apply div_agrees, not_0_INR; lia.
Qed.

Lemma animateCall_div (c : option RRect) (l : Live R) :
  animateCall (ops := ops') c l = animateCall (ops := R_Number) c l.
Proof.
  destruct c as [rect|]; [|reflexivity].
  unfold animateCall.
  rewrite updateRipples_div, !cell_size_div
    by (unfold cols, rows; lia).
  cbn [num_div R_Number]; rewrite !of_nat_INR.
  reflexivity.
Qed.

Lemma renderLive_div (l : Live R) :
  renderLive (ops := ops') l = renderLive (ops := R_Number) l.
Proof.
  unfold renderLive; f_equal; f_equal.
  apply fold_left_ext_in; intros prev u.
  apply updater_div.
Qed.

Lemma reactLive_div (l : Live R) (step : Step R) :
  reactLive (ops := ops') l step = reactLive (ops := R_Number) l step.
Proof.
  destruct step as [[c [e|e|]]|]; cbn [reactLive snd fst].
  - reflexivity.
  - reflexivity.
  - apply animateCall_div.
  - apply renderLive_div.
Qed.

Lemma runLive_div (steps : list (Step R)) (l : Live R) :
  runLive (ops := ops') steps l = runLive (ops := R_Number) steps l.
Proof.
  unfold runLive; apply fold_left_ext_in, reactLive_div.
Qed.

End DivisionByZero.

(** C6, amended. A tick is skipped when the container is absent, and only
    then: [animate] leaves the ripples and the field as they are, hands
    React no update, and requests the next frame, on which it tries again;
    the width and height the container reports are not inspected.  On a
    container of width 0 or height 0 the tick runs like any other: the
    ripples are advanced and filtered, and React is handed the update that
    assigns every cell the maximum of its previous activation times 0.92,
    the pointer stimulus and the ripple stimulus, with the cell centres on
    the collapsed axis all at 0.  No division by a cell dimension, nor any
    other division by zero, takes part in it: every divisor is a constant
    other than 0, so that all results are the same whatever a division by
    zero would yield. *)
Theorem zero_size_surface_frame :
  (forall l : Live R, animateCall None l = l)
  /\ (forall (s : Scheduled R) (h : nat),
        pendingFrames (frameRequests s) = [h] ->
        component (browserFrameScheduled None s) = component s
        /\ frameRef (browserFrameScheduled None s)
           = Some (S (lastHandle (frameRequests s)))
        /\ pendingFrames (frameRequests (browserFrameScheduled None s))
           = [S (lastHandle (frameRequests s))])
  /\ (forall (rect : RRect) (l : Live R),
        ripplesRef (shown (animateCall (Some rect) l))
        = updateRipples (ripplesRef (shown l))
        /\ activations (shown (animateCall (Some rect) l))
           = activations (shown l)
        /\ pending (animateCall (Some rect) l)
           = pending l
             ++ [mkUpdate (Rect.width rect / 28) (Rect.height rect / 18)
                          (Pos.x (mousePosRef (shown l)))
                          (Pos.y (mousePosRef (shown l)))])
  /\ (forall (rect : RRect) (mouseX mouseY : R) (ripples : list RRipple)
             (prev : list R) (i : nat),
        Rect.width rect = 0 ->
        length prev = totalCells ->
        (i < totalCells)%nat ->
        let cy := (INR (i / cols) + 1 / 2) * (Rect.height rect / 18) in
        nth i (callUpdate ripples prev
                 (mkUpdate (Rect.width rect / 28) (Rect.height rect / 18)
                           mouseX mouseY)) 0
        = Rmax (nth i prev 0 * 0.92)
            (Rmax (Rmax 0 (1 - Spec.euclideanDistance 0 cy mouseX mouseY / 150))
                  (fold_right Rmax 0 (map (Spec.contribution 0 cy) ripples))))
  /\ (forall (rect : RRect) (mouseX mouseY : R) (ripples : list RRipple)
             (prev : list R) (i : nat),
        Rect.height rect = 0 ->
        length prev = totalCells ->
        (i < totalCells)%nat ->
        let cx := (INR (i mod cols) + 1 / 2) * (Rect.width rect / 28) in
        nth i (callUpdate ripples prev
                 (mkUpdate (Rect.width rect / 28) (Rect.height rect / 18)
                           mouseX mouseY)) 0
        = Rmax (nth i prev 0 * 0.92)
            (Rmax (Rmax 0 (1 - Spec.euclideanDistance cx 0 mouseX mouseY / 150))
                  (fold_right Rmax 0 (map (Spec.contribution cx 0) ripples))))
  /\ (forall div : R -> R -> R,
        (forall a b, b <> 0 -> div a b = a / b) ->
        forall (steps : list (Step R)) (l : Live R),
          runLive (ops := R_Number_div div) steps l = runLive steps l).
Proof.
  assert (Hsize : forall (rect : RRect) (mx my : R),
    mkUpdate (Rect.width rect / 28) (Rect.height rect / 18) mx my
    = mkUpdate (Rect.width rect / of_nat cols)%num
               (Rect.height rect / of_nat rows)%num mx my).
  { intros rect mx my; cbn [num_div R_Number].
    rewrite !of_nat_INR, INR_cols, INR_rows; reflexivity. }
  split; [reflexivity|].
  split.
  { intros s h Hp.
    rewrite (browserFrameScheduled_single None s Hp).
    now repeat split. }
  split.
  { intros rect l; rewrite Hsize; now repeat split. }
  split; [|split].
  - intros rect mx my ripples prev i Hw Hlen Hi cy.
    rewrite Hsize, callUpdate_cell by assumption.
    rewrite Hw, cellCenterX_0.
    unfold Spec.cellCenterY; rewrite INR_rows.
    reflexivity.
  - intros rect mx my ripples prev i Hh Hlen Hi cx.
    rewrite Hsize, callUpdate_cell by assumption.
    rewrite Hh, cellCenterY_0.
    unfold Spec.cellCenterX; rewrite INR_cols.
    reflexivity.
  - intros div Hdiv steps l; apply runLive_div, Hdiv.
Qed.


(** ** Decay of an undisturbed cell *)

(** Frames alone keep the pointer where it is, and create no ripple. *)
Lemma frames_quiet (c : RRect) (t : nat) (st : RGrid) :
  length (activations st) = totalCells ->
  ripplesRef st = [] ->
  let st' := run (repeat (Some c, Frame) t) st in
  length (activations st') = totalCells
  /\ ripplesRef st' = []
  /\ mousePosRef st' = mousePosRef st.
Proof.
  intros Hlen Hrip; induction t as [|t (IHlen & IHrip & IHpos)].
  - now repeat split.
  - cbv zeta; rewrite run_frames_S.
    cbn [animate activations ripplesRef mousePosRef].
    rewrite IHrip.
    repeat split; [now apply updater_length|exact IHpos].
Qed.

(** *** Rounding to binary64 *)

Section Rounding64.

Local Open Scope Z_scope.

Lemma digits2_size (p : positive) : digits2_pos p = Pos.size p.
Proof. induction p; cbn; now rewrite ?IHp. Qed.

(** [2^(digits - 1) <= m < 2^digits]. *)
Lemma digits2_bounds (p : positive) :
  2 ^ (Zpos (digits2_pos p) - 1) <= Zpos p < 2 ^ Zpos (digits2_pos p).
Proof.
  rewrite digits2_size.
  pose proof (Pos.size_gt p) as Hgt; pose proof (Pos.size_le p) as Hle.
  apply Pos2Z.pos_lt_pos in Hgt; apply Pos2Z.pos_le_pos in Hle.
  rewrite Pos2Z.inj_pow in Hgt, Hle.
  split; [|exact Hgt].
  assert (H : 2 ^ Zpos (Pos.size p) = 2 * 2 ^ (Zpos (Pos.size p) - 1)).
  { rewrite <- Z.pow_succ_r by lia. f_equal; lia. }
  rewrite H in Hle.
  generalize dependent (2 ^ (Zpos (Pos.size p) - 1)); intros; lia.
Qed.

Lemma shr_1_m (mrs : shr_record) :
  0 <= shr_m mrs -> shr_m (shr_1 mrs) = shr_m mrs / 2.
Proof.
  destruct mrs as [m r s]; cbn [shr_m]; intros Hm.
  destruct m as [|[p|p|]|p]; cbn [shr_1 shr_m]; [reflexivity| | |reflexivity|lia].
  - apply Z.div_unique with (r := 1); lia.
  - apply Z.div_unique with (r := 0); lia.
Qed.

Lemma iter_shr_1_m (p : positive) (mrs : shr_record) :
  0 <= shr_m mrs ->
  shr_m (iter_pos shr_1 p mrs) = shr_m mrs / 2 ^ Zpos p.
Proof.
  revert mrs; induction p as [p IH|p IH|]; intros mrs Hm; cbn [iter_pos].
  - assert (H1 : 0 <= shr_m (shr_1 mrs))
      by (rewrite shr_1_m by exact Hm; apply Z.div_pos; lia).
    assert (H2 : 0 <= shr_m (iter_pos shr_1 p (shr_1 mrs)))
      by (rewrite IH by exact H1; apply Z.div_pos; lia).
    rewrite IH, IH, shr_1_m by assumption.
    rewrite !Z.div_div by lia.
    f_equal. replace (Zpos p~1) with (1 + Zpos p + Zpos p) by lia.
    rewrite !Z.pow_add_r by lia. change (2 ^ 1) with 2. ring.
  - assert (H2 : 0 <= shr_m (iter_pos shr_1 p mrs))
      by (rewrite IH by exact Hm; apply Z.div_pos; lia).
    rewrite IH, IH by assumption.
    rewrite !Z.div_div by lia.
    f_equal. replace (Zpos p~0) with (Zpos p + Zpos p) by lia.
    rewrite !Z.pow_add_r by lia. ring.
  - rewrite shr_1_m by exact Hm. reflexivity.
Qed.

Lemma shr_record_of_loc_m (m : Z) (l : location) :
  shr_m (shr_record_of_loc m l) = m.
Proof. destruct l as [|[]]; reflexivity. Qed.

(** The mantissa and exponent after [shr_fexp]. *)
Lemma shr_fexp_spec (m e : Z) (l : location) :
  0 <= m ->
  let k := Z.max 0 (fexp prec emax (Zdigits2 m + e) - e) in
  shr_m (fst (shr_fexp prec emax m e l)) = m / 2 ^ k
  /\ snd (shr_fexp prec emax m e l) = e + k.
Proof.
  intros Hm k; unfold shr_fexp, shr; subst k.
  destruct (fexp prec emax (Zdigits2 m + e) - e) as [|p|p] eqn:Hk;
    cbn [fst snd].
  - rewrite shr_record_of_loc_m, Z.div_1_r; cbn; split; lia.
  - rewrite iter_shr_1_m by (rewrite shr_record_of_loc_m; exact Hm).
    rewrite shr_record_of_loc_m, Z.max_r by lia.
    split; reflexivity.
  - rewrite shr_record_of_loc_m, Z.max_l by lia.
    rewrite Z.div_1_r; split; lia.
Qed.

Lemma round_nearest_even_ge (m : Z) (l : location) :
  m <= round_nearest_even m l.
Proof.
  destruct l as [|[]]; cbn; try lia.
  destruct (Z.even m); lia.
Qed.

Lemma binary_round_aux_nonneg (m e : Z) (l : location) :
  0 <= m -> nonneg64 (binary_round_aux prec emax false m e l).
Proof.
  intros Hm; unfold binary_round_aux.
  destruct (shr_fexp prec emax m e l) as [mrs' e'] eqn:H1.
  pose proof (@shr_fexp_spec m e l Hm) as [Hm1 _]; rewrite H1 in Hm1.
  cbn [fst] in Hm1.
  set (r := round_nearest_even (shr_m mrs') (loc_of_shr_record mrs')).
  assert (Hr : 0 <= r).
  { etransitivity; [|apply round_nearest_even_ge].
    rewrite Hm1; apply Z.div_pos; lia. }
  destruct (shr_fexp prec emax r e' loc_Exact) as [mrs'' e''] eqn:H2.
  pose proof (@shr_fexp_spec r e' loc_Exact Hr) as [Hm2 _]; rewrite H2 in Hm2.
  cbn [fst] in Hm2.
  assert (0 <= shr_m mrs'') by (rewrite Hm2; apply Z.div_pos; lia).
  destruct (shr_m mrs'') as [|p|p]; [exact I| |lia].
  destruct (e'' <=? emax - prec); exact I.
Qed.

Lemma fexp_ge_emin (e : Z) : -1074 <= fexp prec emax e.
Proof. unfold fexp, emin, prec, emax; lia. Qed.

Lemma Zdigits2_pos_bounds (m : Z) :
  0 < m -> 2 ^ (Zdigits2 m - 1) <= m < 2 ^ Zdigits2 m.
Proof. destruct m as [|p|p]; try lia; intros _; apply digits2_bounds. Qed.

(** Rounding a positive value that has a digit left after the first shift
    gives a positive double. *)
Lemma binary_round_aux_positive (m e : Z) (l : location) :
  0 < m ->
  fexp prec emax (Zdigits2 m + e) - e <= Zdigits2 m - 1 ->
  positive64 (binary_round_aux prec emax false m e l).
Proof.
  intros Hm Hk; unfold binary_round_aux.
  destruct (shr_fexp prec emax m e l) as [mrs' e'] eqn:H1.
  pose proof (@shr_fexp_spec m e l (Z.lt_le_incl _ _ Hm)) as [Hm1 He1].
  rewrite H1 in Hm1, He1; cbn [fst snd] in Hm1, He1.
  pose proof (@Zdigits2_pos_bounds m Hm) as [Hlo _].
  assert (Hd : 1 <= Zdigits2 m) by (destruct m; cbn in *; lia).
  set (k := Z.max 0 (fexp prec emax (Zdigits2 m + e) - e)) in *.
  assert (Hm1' : 1 <= shr_m mrs').
  { rewrite Hm1. apply Z.div_le_lower_bound; [apply Z.pow_pos_nonneg; lia|].
    rewrite Z.mul_1_r. etransitivity; [|exact Hlo].
    apply Z.pow_le_mono_r; lia. }
  assert (He' : -1074 <= e').
  { rewrite He1. pose proof (fexp_ge_emin (Zdigits2 m + e)). lia. }
  set (r := round_nearest_even (shr_m mrs') (loc_of_shr_record mrs')).
  assert (Hr : 1 <= r)
    by (etransitivity; [exact Hm1'|apply round_nearest_even_ge]).
  destruct (shr_fexp prec emax r e' loc_Exact) as [mrs'' e''] eqn:H2.
  pose proof (@shr_fexp_spec r e' loc_Exact) as Hs.
  destruct Hs as [Hm2 _]; [lia|]; rewrite H2 in Hm2; cbn [fst] in Hm2.
  pose proof (@Zdigits2_pos_bounds r) as [Hrlo _]; [lia|].
  assert (Hdr : 1 <= Zdigits2 r) by (destruct r; cbn in *; lia).
  assert (Hm2' : 1 <= shr_m mrs'').
  { rewrite Hm2. apply Z.div_le_lower_bound; [apply Z.pow_pos_nonneg; lia|].
    rewrite Z.mul_1_r. etransitivity; [|exact Hrlo].
    apply Z.pow_le_mono_r; [lia|].
    unfold fexp, emin, prec, emax. lia. }
  destruct (shr_m mrs'') as [|p|p]; [lia| |lia].
  destruct (e'' <=? emax - prec); exact I.
Qed.

Lemma Prim2SF_decay :
  Prim2SF decay = S754_finite false 8286623314361713 (-53).
Proof. vm_compute. reflexivity. Qed.

Lemma mul_decay_nonneg (x : float) :
  nonneg64 (Prim2SF x) -> nonneg64 (Prim2SF (PrimFloat.mul x decay)).
Proof.
  rewrite FloatAxioms.mul_spec, Prim2SF_decay.
  destruct (Prim2SF x) as [[]|[]| |[] m e]; cbn [nonneg64]; intros H;
    try contradiction; try exact I.
  unfold FloatAxioms.SF64mul, SFmul; cbn [xorb].
  apply binary_round_aux_nonneg; lia.
Qed.

Lemma mul_decay_positive (x : float) :
  positive64 (Prim2SF x) -> positive64 (Prim2SF (PrimFloat.mul x decay)).
Proof.
  pose proof (FloatAxioms.Prim2SF_valid x) as Hv.
  rewrite FloatAxioms.mul_spec, Prim2SF_decay.
  destruct (Prim2SF x) as [[]|[]| |[] m e]; cbn [positive64]; intros H;
    try contradiction; try exact I.
  unfold FloatAxioms.SF64mul, SFmul; cbn [xorb].
  unfold valid_binary, bounded, canonical_mantissa in Hv.
  apply andb_prop in Hv as [Hc _]. apply Z.eqb_eq in Hc.
  pose proof (digits2_bounds m) as [_ Hm].
  assert (He : -1074 <= e /\ Zpos (digits2_pos m) <= 53)
    by (unfold fexp, emin, prec, emax in Hc; lia).
  destruct (Pos.eq_dec m 1) as [->|Hm1].
  - destruct (Z.eq_dec e (-1074)) as [->|He1]; [vm_compute; exact I|].
    apply binary_round_aux_positive; [lia|].
    change (Zdigits2 (Zpos (1 * 8286623314361713))) with 53.
    unfold fexp, emin, prec, emax; lia.
  - apply binary_round_aux_positive; [lia|].
    pose proof (@Zdigits2_pos_bounds (Zpos (m * 8286623314361713))) as [_ Hhi];
      [lia|].
    assert (Hd : 54 <= Zdigits2 (Zpos (m * 8286623314361713))).
    { destruct (Z_lt_le_dec (Zdigits2 (Zpos (m * 8286623314361713))) 54)
        as [Hlt|]; [exfalso|assumption].
      assert (2 ^ Zdigits2 (Zpos (m * 8286623314361713)) <= 2 ^ 53)
        by (apply Z.pow_le_mono_r; lia).
      assert (2 * 8286623314361713 <= Zpos (m * 8286623314361713)) by nia.
      change (2 ^ 53) with 9007199254740992 in *. lia. }
    unfold fexp, emin, prec, emax; lia.
Qed.

Lemma SFcompare_refl_nonneg (x : spec_float) :
  nonneg64 x -> SFcompare x x = Some Eq.
Proof.
  destruct x as [[]|[]| |[] m e]; cbn [nonneg64]; intros H;
    try contradiction; try reflexivity.
  cbn [SFcompare]. rewrite Z.compare_refl, Pos.compare_cont_refl. reflexivity.
Qed.

(** [Math.max(x, 0)] is [x] for a double that is not negative. *)
Lemma max_zero_nonneg (x : float) :
  nonneg64 (Prim2SF x) -> Binary64.max x PrimFloat.zero = x.
Proof.
  intros Hx. unfold Binary64.max.
  assert (Hnan : PrimFloat.is_nan x = false).
  { unfold PrimFloat.is_nan. rewrite FloatAxioms.eqb_spec. unfold SFeqb.
    rewrite SFcompare_refl_nonneg by exact Hx. reflexivity. }
  rewrite Hnan. cbn [orb].
  change (PrimFloat.is_nan PrimFloat.zero) with false. cbv iota.
  assert (Hlt : PrimFloat.ltb x PrimFloat.zero = false).
  { rewrite FloatAxioms.ltb_spec. change (Prim2SF PrimFloat.zero) with (S754_zero false).
    destruct (Prim2SF x) as [[]|[]| |[] m e]; cbn [nonneg64] in Hx;
      try contradiction; reflexivity. }
  rewrite Hlt.
  destruct (PrimFloat.ltb PrimFloat.zero x); [reflexivity|].
  destruct (PrimFloat.is_zero x) eqn:Hz; [|reflexivity].
  cbn [andb].
  assert (Hs : PrimFloat.get_sign x = false).
  { unfold PrimFloat.get_sign. rewrite Hz, FloatAxioms.ltb_spec, FloatAxioms.div_spec.
    unfold PrimFloat.is_zero in Hz. rewrite FloatAxioms.eqb_spec in Hz.
    change (Prim2SF PrimFloat.zero) with (S754_zero false) in *.
    change (Prim2SF PrimFloat.one)
      with (S754_finite false 4503599627370496 (-52)).
    destruct (Prim2SF x) as [[]|[]| |[] m e]; cbn [nonneg64] in Hx;
      try contradiction; try discriminate Hz; reflexivity. }
  rewrite Hs. reflexivity.
Qed.

Lemma positive64_ltb (x : float) :
  PrimFloat.ltb PrimFloat.zero x = true <-> positive64 (Prim2SF x).
Proof.
  rewrite FloatAxioms.ltb_spec. change (Prim2SF PrimFloat.zero) with (S754_zero false).
  destruct (Prim2SF x) as [[]|[]| |[] m e]; cbn; intuition congruence.
Qed.

Lemma positive64_nonneg (x : spec_float) : positive64 x -> nonneg64 x.
Proof. destruct x as [[]|[]| |[] m e]; cbn; tauto. Qed.

(** No positive double is below the smallest one. *)
Lemma positive64_ge_tiny (x : float) :
  positive64 (Prim2SF x) -> PrimFloat.ltb x tiny64 = false.
Proof.
  pose proof (FloatAxioms.Prim2SF_valid x) as Hv.
  rewrite FloatAxioms.ltb_spec.
  change (Prim2SF tiny64) with (S754_finite false 1 (-1074)).
  destruct (Prim2SF x) as [[]|[]| |[] m e]; cbn [positive64]; intros H;
    try contradiction; try reflexivity.
  unfold valid_binary, bounded, canonical_mantissa in Hv.
  apply andb_prop in Hv as [Hc _]. apply Z.eqb_eq in Hc.
  assert (He : -1074 <= e) by (unfold fexp, emin, prec, emax in Hc; lia).
  unfold SFltb, SFcompare.
  destruct (Z.compare_spec e (-1074)) as [->|Hlt|Hgt]; [|lia|reflexivity].
  change (Pos.compare_cont Eq m 1) with (Pos.compare m 1).
  destruct (Pos.compare_spec m 1) as [->|Hm|Hm]; [reflexivity|lia|reflexivity].
Qed.

End Rounding64.

(** *** Updates without ripples *)

(** One update without ripples, on exact reals. *)
Lemma update_without_ripples (c : RRect) (mx my : R) (prev : list R)
    (i : nat) :
  length prev = totalCells ->
  (i < totalCells)%nat ->
  nth i (updater (Rect.width c / of_nat cols) (Rect.height c / of_nat rows)
                 mx my [] prev)%num 0
  = Rmax (nth i prev 0 * 0.92)
         (Spec.pointerStimulus
            (Spec.euclideanDistance
               (Spec.cellCenterX (Rect.width c) i)
               (Spec.cellCenterY (Rect.height c) i) mx my)).
Proof.
  intros Hlen Hi.
  pose proof (@callUpdate_cell c mx my [] prev i Hlen Hi) as H.
  cbv zeta in H; cbn [map fold_right] in H.
  rewrite (Rmax_left (Spec.pointerStimulus _) 0) in H
    by apply pointerStimulus_nonneg.
  exact H.
Qed.

(** The cell after [t] updates without ripples and without pointer
    stimulus. *)
Lemma updates_without_stimulus (c : RRect) (mx my : R) (field : list R)
    (i t : nat) :
  length field = totalCells ->
  (i < totalCells)%nat ->
  150 <= Spec.euclideanDistance
           (Spec.cellCenterX (Rect.width c) i)
           (Spec.cellCenterY (Rect.height c) i) mx my ->
  0 <= nth i field 0 ->
  nth i (Nat.iter t
           (updater (Rect.width c / of_nat cols) (Rect.height c / of_nat rows)
                    mx my [])%num field) 0
  = nth i field 0 * 0.92 ^ t.
Proof.
  intros Hlen Hi Hfar Hpos; induction t as [|t IH]; [cbn; lra|].
  cbn [Nat.iter nat_rect].
  rewrite update_without_ripples
    by (try apply iter_updater_length; assumption).
  change (nat_rect _ ?x ?f t) with (Nat.iter t (f O) x); cbv beta.
  rewrite pointerStimulus_far by exact Hfar.
  rewrite IH.
  assert (0 <= 0.92 ^ t) by (apply pow_le; lra).
  rewrite Rmax_left by nra.
  cbn; ring.
Qed.

(** The decay on exact reals. *)
Lemma decay_exact (c : RRect) (st : RGrid) (i : nat) :
  length (activations st) = totalCells ->
  (i < totalCells)%nat ->
  ripplesRef st = [] ->
  150 <= Spec.euclideanDistance
           (Spec.cellCenterX (Rect.width c) i)
           (Spec.cellCenterY (Rect.height c) i)
           (Pos.x (mousePosRef st)) (Pos.y (mousePosRef st)) ->
  0 < nth i (activations st) 0 ->
  forall batches,
    nth i (activations (shown (runLive (ticks c batches) (mkLive st [])))) 0
    = nth i (activations st) 0 * 0.92 ^ list_sum batches.
Proof.
  intros Hlen Hi Hrip Hfar Hpos batches.
  rewrite ticks_quiet by exact Hrip; cbn [shown activations].
  apply updates_without_stimulus; try assumption; lra.
Qed.

Lemma geometric_sequence (a : R) (activation : nat -> R) :
  0 < a ->
  (forall t, activation t = a * 0.92 ^ t) ->
  (forall t, activation (S t) = activation t * 0.92)
  /\ (forall t, 0 < activation (S t) < activation t)
  /\ Un_cv activation 0
  /\ (forall t, activation t <> 0).
Proof.
  intros Hpos Hgeo.
  assert (Hall : forall t, 0 < activation t).
  { intros t; rewrite Hgeo; apply Rmult_lt_0_compat; [exact Hpos|].
    apply pow_lt; lra. }
  assert (Hstep : forall t, activation (S t) = activation t * 0.92)
    by (intros t; rewrite !Hgeo; cbn; ring).
  split; [exact Hstep|].
  split; [intros t; rewrite Hstep; specialize (Hall t); lra|].
  split; [|intros t; specialize (Hall t); lra].
  intros eps Heps.
  assert (Hr : Rabs 0.92 < 1)
    by (unfold Rabs; destruct (Rcase_abs 0.92); lra).
  assert (Hq : 0 < eps / a) by (apply Rdiv_lt_0_compat; [lra|exact Hpos]).
  destruct (pow_lt_1_zero 0.92 Hr (eps / a) Hq) as [N HN].
  exists N; intros n Hn; specialize (HN n Hn).
  unfold Rdist; rewrite Rminus_0_r, Hgeo, Rabs_mult.
  rewrite (Rabs_pos_eq a) by lra.
  apply (Rmult_lt_compat_l a) in HN; [|exact Hpos].
  replace (a * (eps / a)) with eps in HN by (field; lra).
  exact HN.
Qed.

(** One update without ripples and without pointer stimulus, on
    binary64. *)
Lemma update_without_stimulus64 (cw ch mx my : float) (prev : list float)
    (i : nat) :
  length prev = totalCells ->
  (i < totalCells)%nat ->
  mouseActivationAt mx my (cellX cw i) (cellY ch i) = of_Z 0 ->
  nonneg64 (Prim2SF (nth i prev (of_Z 0))) ->
  nth i (updater cw ch mx my [] prev) (of_Z 0)
  = (nth i prev (of_Z 0) * decay)%num.
Proof.
  intros Hlen Hi Hmouse Hpos.
  rewrite updater_nth by assumption.
  unfold nextActivation; rewrite Hmouse.
  change (rippleActivationAt [] (cellX cw i) (cellY ch i))
    with (of_Z 0 : float).
  change (of_Z 0 : float) with PrimFloat.zero in *.
  cbn [Math_max Float_Number num_mul].
  pose proof (@mul_decay_nonneg _ Hpos) as Hm.
  rewrite !(@max_zero_nonneg _ Hm).
  reflexivity.
Qed.

Lemma fade_positive (t : nat) (a : float) :
  positive64 (Prim2SF a) -> positive64 (Prim2SF (Run64.fade t a)).
Proof.
  intros Ha; induction t as [|t IH]; [exact Ha|].
  exact (@mul_decay_positive _ IH).
Qed.

Lemma updates_without_stimulus64 (cw ch mx my : float) (field : list float)
    (i t : nat) :
  length field = totalCells ->
  (i < totalCells)%nat ->
  mouseActivationAt mx my (cellX cw i) (cellY ch i) = of_Z 0 ->
  positive64 (Prim2SF (nth i field (of_Z 0))) ->
  nth i (Nat.iter t (updater cw ch mx my []) field) (of_Z 0)
  = Run64.fade t (nth i field (of_Z 0)).
Proof.
  intros Hlen Hi Hmouse Hpos; induction t as [|t IH]; [reflexivity|].
  cbn [Nat.iter nat_rect].
  change (nat_rect _ ?x ?f t) with (Nat.iter t (f O) x); cbv beta.
  rewrite update_without_stimulus64;
    [ |apply iter_updater_length; assumption|assumption|assumption| ].
  - rewrite IH; reflexivity.
  - rewrite IH; apply positive64_nonneg, fade_positive, Hpos.
Qed.

Lemma stall64_fixed : (stall64 * decay)%num = stall64.
Proof. vm_compute; reflexivity. Qed.

Lemma fade_stall64 (t : nat) : Run64.fade t stall64 = stall64.
Proof.
  induction t as [|t IH]; [reflexivity|].
  unfold Run64.fade in *; cbn [Nat.iter nat_rect].
  change (nat_rect _ ?x ?f t) with (Nat.iter t (f O) x); cbv beta.
  rewrite IH; exact stall64_fixed.
Qed.

Lemma fade_add (s t : nat) (a : float) :
  Run64.fade (s + t) a = Run64.fade s (Run64.fade t a).
Proof. apply Nat.iter_add. Qed.

(** The decay on binary64. *)
Lemma decay_binary64 (c : Rect.t float) (st : Grid float) (i : nat) :
  length (activations st) = totalCells ->
  (i < totalCells)%nat ->
  ripplesRef st = [] ->
  mouseActivationAt (Pos.x (mousePosRef st)) (Pos.y (mousePosRef st))
    (cellX (Rect.width c / of_nat cols)%num i)
    (cellY (Rect.height c / of_nat rows)%num i) = of_Z 0 ->
  (of_Z 0 <? nth i (activations st) (of_Z 0))%num = true ->
  forall batches,
    nth i (activations (shown (runLive (ticks c batches) (mkLive st []))))
        (of_Z 0)
    = Run64.fade (list_sum batches) (nth i (activations st) (of_Z 0)).
Proof.
  intros Hlen Hi Hrip Hmouse Hpos batches.
  rewrite ticks_quiet by exact Hrip; cbn [shown activations].
  apply updates_without_stimulus64; try assumption.
  apply positive64_ltb; exact Hpos.
Qed.

(** A cell at or below its pointer stimulus takes it at the first update
    without ripples, and keeps it. *)
Lemma updates_hold_stimulus (c : RRect) (mx my : R) (field : list R)
    (i t : nat) :
  length field = totalCells ->
  (i < totalCells)%nat ->
  let stimulus :=
    Spec.pointerStimulus
      (Spec.euclideanDistance
         (Spec.cellCenterX (Rect.width c) i)
         (Spec.cellCenterY (Rect.height c) i) mx my) in
  nth i field 0 <= stimulus ->
  nth i (Nat.iter (S t)
           (updater (Rect.width c / of_nat cols) (Rect.height c / of_nat rows)
                    mx my [])%num field) 0
  = stimulus.
Proof.
  intros Hlen Hi stimulus Hlow.
  pose proof (pointerStimulus_nonneg
                (Spec.euclideanDistance
                   (Spec.cellCenterX (Rect.width c) i)
                   (Spec.cellCenterY (Rect.height c) i) mx my)) as Hs.
  fold stimulus in Hs.
  induction t as [|t IH].
  - cbn [Nat.iter nat_rect].
    rewrite update_without_ripples by assumption.
    fold stimulus; apply Rmax_right.
    destruct (Rle_dec 0 (nth i field 0)); nra.
  - change (Nat.iter (S (S t)) ?f field) with (f (Nat.iter (S t) f field)).
    rewrite update_without_ripples
      by (try apply iter_updater_length; assumption).
    rewrite IH; fold stimulus.
    apply Rmax_right; lra.
Qed.

(** On binary64 the decay of 1 has arrived at [stall64] after 9000
    frames. *)
Lemma fade_to_stall64 : Run64.fade (90 * 100) (of_Z 1) = stall64.
Proof. vm_compute; reflexivity. Qed.




(** ** Presentation of a cell *)

Lemma Rmax_IZR (m n : Z) : Rmax (IZR m) (IZR n) = IZR (Z.max m n).
Proof.
  unfold Rmax; destruct (Rle_dec (IZR m) (IZR n)) as [H|H].
  - apply le_IZR in H; now rewrite Z.max_r.
  - apply Rnot_le_lt, lt_IZR in H; rewrite Z.max_l; [reflexivity|lia].
Qed.

Lemma to_index_IZR (z : Z) :
  (0 <= z)%Z -> to_index (IZR z) = Some (Z.to_nat z).
Proof.
  intros Hz; cbn; unfold Real.to_index; rewrite ZfloorZ.
  destruct (Req_dec_T (IZR z) (IZR z)) as [_|Hne]; [|now destruct Hne].
  apply Z.leb_le in Hz; now rewrite Hz.
Qed.

Lemma length_chars : length chars = 5%nat.
Proof. reflexivity. Qed.

(** The symbol [getCharAndStyle] picks. *)
Lemma char_of_activation (activations : list R) (index : nat) :
  char (getCharAndStyle activations index)
  = nth_error chars
      (Z.to_nat (Z.max 0 (Zfloor (nth index activations 0 * 4)))).
Proof.
  unfold getCharAndStyle; cbn [char].
  rewrite of_nat_INR, length_chars.
  replace (INR (5 - 1)) with 4 by (cbn; lra).
  cbn [Math_max Math_floor of_Z num_mul R_Number]; unfold Real.floor.
  now rewrite Rmax_IZR, to_index_IZR by lia.
Qed.

(** C8. For the activation [a] of a cell, [getCharAndStyle] returns the
    symbol of the palette [chars] (of [N] symbols, from sparse to dense) at
    index [floor(a * (N - 1))], or at 0 if that is negative, the opacity
    [0.12 + a * 0.88] and the scale [1 + a * 0.8]. *)
Theorem presentation_of_activation (activations : list R) (index : nat) :
  let a := nth index activations 0 in
  let N := length chars in
  getCharAndStyle activations index
  = mkStyle (nth_error chars (Z.to_nat (Z.max 0 (Zfloor (a * (INR N - 1))))))
            (0.12 + a * 0.88)
            (1 + a * 0.8).
Proof.
  intros a N.
  pose proof (char_of_activation activations index) as Hchar.
  fold a in Hchar.
  replace (INR N - 1) with 4 by (unfold N; rewrite length_chars; cbn; lra).
  rewrite <- Hchar.
  unfold getCharAndStyle; fold a; cbn [char].
  f_equal; cbn; lra.
Qed.

(** C9. For an activation [a] in [0,1], the index [floor(a * (N - 1))] is
    between 0 and [N - 1], so that [chars[...]] is one of the [N] symbols
    and never [undefined], although only the lower bound is clamped. *)
Theorem symbol_index_in_bounds (activations : list R) (index : nat) :
  0 <= nth index activations 0 <= 1 ->
  let a := nth index activations 0 in
  let N := length chars in
  (0 <= Zfloor (a * (INR N - 1)) <= Z.of_nat N - 1)%Z
  /\ exists symbol,
       char (getCharAndStyle activations index) = Some symbol
       /\ In symbol chars.
Proof.
  intros Ha a N; fold a in Ha.
  assert (HN : INR N - 1 = 4) by (unfold N; rewrite length_chars; cbn; lra).
  assert (Hidx : (0 <= Zfloor (a * (INR N - 1)) <= Z.of_nat N - 1)%Z).
  { rewrite HN; unfold N; rewrite length_chars.
    split.
    - apply Zfloor_lub; lra.
    - pose proof (Zfloor_bound (a * 4)) as [Hlo _].
      apply le_IZR; cbn; lra. }
  split; [exact Hidx|].
  rewrite char_of_activation; fold a.
  rewrite HN in Hidx; rewrite Z.max_r by lia.
  destruct (nth_error chars (Z.to_nat (Zfloor (a * 4))))
    as [symbol|] eqn:Hnth.
  - exists symbol; split; [reflexivity|eapply nth_error_In, Hnth].
  - apply nth_error_None in Hnth; subst N.
    rewrite length_chars in *; lia.
Qed.

(** The brightest cell shows one of the symbols. *)
Lemma symbol_index_in_bounds_witness :
  0 <= nth 0 [1] 0 <= 1
  /\ exists symbol,
       char (getCharAndStyle [1] 0) = Some symbol /\ In symbol chars.
Proof.
  assert (H : 0 <= nth 0 [1] 0 <= 1) by (cbn; lra).
  split; [exact H|].
  exact (proj2 (symbol_index_in_bounds [1] 0 H)).
Defined.

(** * The animation loop *)

Section LoopFacts.

Context {num : Type} {ops : Number num}.

(** A frame that finds one request waiting runs [animate] once and leaves
    one request, with the next handle. *)
Lemma browserFrame_single (c : option (Rect.t num)) (m : Mounted num)
    (h : nat) :
  pendingFrames (requests m) = [h] ->
  browserFrame c m
  = mkMounted (animate c (grid m))
      (Some (S (lastHandle (requests m))))
      (mkRequests (S (lastHandle (requests m)))
                  [S (lastHandle (requests m))]).
Proof.
  intros Hp; unfold browserFrame; rewrite Hp.
  destruct c; reflexivity.
Qed.

(** A frame that finds nothing waiting does nothing. *)
Lemma browserFrame_idle (c : option (Rect.t num)) (m : Mounted num) :
  pendingFrames (requests m) = [] -> browserFrame c m = m.
Proof.
  intros Hp; unfold browserFrame; rewrite Hp; cbn.
  destruct m as [g a [l p]]; cbn in *; now subst.
Qed.

Lemma startLoop_request (m : Mounted num) :
  pendingFrames (requests m) = [] ->
  animationRef (startLoop m) = Some (S (lastHandle (requests m)))
  /\ pendingFrames (requests (startLoop m)) = [S (lastHandle (requests m))]
  /\ grid (startLoop m) = grid m.
Proof. intros Hp; unfold startLoop; cbn; now rewrite Hp. Qed.

(** What the running loop maintains, and what the grid has become. *)
Lemma runMounted_spec (evs : list (option (Rect.t num) * Input num))
    (m : Mounted num) (h : nat) :
  animationRef m = Some (S h) ->
  pendingFrames (requests m) = [S h] ->
  exists h',
    animationRef (runMounted evs m) = Some (S h')
    /\ pendingFrames (requests (runMounted evs m)) = [S h']
    /\ grid (runMounted evs m) = run evs (grid m).
Proof.
  revert m h; induction evs as [|[c i] evs IH]; intros m h Href Hp.
  - exists h; now repeat split.
  - change (runMounted ((c, i) :: evs) m)
      with (runMounted evs (reactMounted m (c, i))).
    rewrite run_cons.
    destruct i as [e|e|].
    + exact (IH (reactMounted m (c, MouseMove e)) h Href Hp).
    + exact (IH (reactMounted m (c, Click e)) h Href Hp).
    + change (reactMounted m (c, Frame)) with (browserFrame c m).
      change (react (grid m) (c, Frame)) with (animate c (grid m)).
      rewrite (browserFrame_single c m Hp).
      exact (IH (mkMounted (animate c (grid m))
                   (Some (S (lastHandle (requests m))))
                   (mkRequests (S (lastHandle (requests m)))
                               [S (lastHandle (requests m))]))
                (lastHandle (requests m)) eq_refl eq_refl).
Qed.

(** X1. Once the animation effect has run on a page where no request of
    the component is waiting, the loop keeps itself going without ever
    doubling: after any pointer moves, clicks and frames (with the
    container mounted or not), exactly one frame request is waiting, and
    its handle, which is not 0, is the one stored in [animationRef]. *)
Theorem animation_loop_keeps_one_request
    (m0 : Mounted num) (evs : list (option (Rect.t num) * Input num)) :
  pendingFrames (requests m0) = [] ->
  exists handle,
    handle <> 0%nat
    /\ animationRef (runMounted evs (startLoop m0)) = Some handle
    /\ pendingFrames (requests (runMounted evs (startLoop m0))) = [handle].
Proof.
  intros Hp.
  destruct (startLoop_request m0 Hp) as (Href & Hpend & _).
  destruct (runMounted_spec evs (startLoop m0) Href Hpend)
    as (h' & H1 & H2 & _).
  exists (S h'); repeat split; [discriminate|exact H1|exact H2].
Qed.

(** X3. The cleanup of the animation effect stops the loop: after it no
    frame request is waiting, and whatever number of browser frames
    follows, [animate] is not called again: the grid stays as it was and
    no request appears. *)
Theorem cleanup_stops_animation_loop
    (handle0 : nat) (evs : list (option (Rect.t num) * Input num))
    (frames : list (option (Rect.t num))) :
  let stopped := stopLoop (runMounted evs (mount handle0)) in
  let later := fold_left (fun m c => browserFrame c m) frames stopped in
  pendingFrames (requests stopped) = []
  /\ grid stopped = run evs initial
  /\ later = stopped.
Proof.
  intros stopped later.
  unfold mount in stopped.
  set (m0 := mkMounted initial None (mkRequests handle0 [])) in stopped.
  destruct (startLoop_request m0 eq_refl) as (Href & Hpend & Hgrid).
  destruct (runMounted_spec evs (startLoop m0) Href Hpend)
    as (h' & H1 & H2 & H3).
  assert (Hstop : pendingFrames (requests stopped) = []).
  { unfold stopped, stopLoop; rewrite H1.
    cbn [requests cancelAnimationFrame pendingFrames]; rewrite H2.
    cbn [remove].
    destruct (Nat.eq_dec (S h') (S h')) as [_|Hne]; [reflexivity|].
    now destruct Hne. }
  split; [exact Hstop|].
  split.
  { unfold stopped, stopLoop; rewrite H1; cbn [grid].
    rewrite H3, Hgrid; reflexivity. }
  unfold later; clear later.
  induction frames as [|c frames IH]; [reflexivity|].
  cbn [fold_left]; rewrite browserFrame_idle by exact Hstop.
  exact IH.
Qed.

(** X4. The array of activations keeps one entry per cell through every
    run, on any numbers: the loop of [animate] reads [prev[i]] and writes
    [next[i]] inside the array, and the component renders [totalCells]
    cells, each from an entry that exists. *)
Theorem field_keeps_one_entry_per_cell
    (evs : list (option (Rect.t num) * Input num)) :
  length (activations (run evs initial)) = totalCells
  /\ length (renderCells (run evs initial)) = totalCells
  /\ forall index, (index < totalCells)%nat ->
       nth_error (activations (run evs initial)) index <> None.
Proof.
  pose proof (length_activations evs) as Hlen.
  split; [exact Hlen|].
  split.
  - unfold renderCells; now rewrite length_map, length_seq.
  - intros index Hi; apply nth_error_Some; lia.
Qed.

End LoopFacts.

(** The effect runs on a fresh page; then a frame without container, a
    click and a frame with it. *)
Lemma animation_loop_keeps_one_request_witness :
  pendingFrames
    (requests (mkMounted (initial (num := R)) None (mkRequests 0 []))) = []
  /\ exists handle,
       handle <> 0%nat
       /\ animationRef
            (runMounted
               [(None, Frame);
                (Some (Rect.mk 0 0 280 180), Click (MouseEvent.mk 140 90));
                (Some (Rect.mk 0 0 280 180), Frame)]
               (startLoop (mkMounted initial None (mkRequests 0 []))))
          = Some handle
       /\ pendingFrames
            (requests
               (runMounted
                  [(None, Frame);
                   (Some (Rect.mk 0 0 280 180), Click (MouseEvent.mk 140 90));
                   (Some (Rect.mk 0 0 280 180), Frame)]
                  (startLoop (mkMounted initial None (mkRequests 0 [])))))
          = [handle].
Proof.
  split; [reflexivity|].
  apply (animation_loop_keeps_one_request
           (mkMounted (initial (num := R)) None (mkRequests 0 []))).
  reflexivity.
Defined.

(** * What the grid shows *)

Lemma opacity_of_activation (activations : list R) (index : nat) :
  opacity (getCharAndStyle activations index)
  = 0.12 + nth index activations 0 * 0.88.
Proof. unfold getCharAndStyle; cbn; lra. Qed.

Lemma scale_of_activation (activations : list R) (index : nat) :
  scale (getCharAndStyle activations index)
  = 1 + nth index activations 0 * 0.8.
Proof. unfold getCharAndStyle; cbn; lra. Qed.

(** The position in the palette of the symbol shown for an activation. *)
Lemma symbol_position (a : R) :
  0 <= a <= 1 ->
  exists k, (k < 5)%nat /\ Z.max 0 (Zfloor (a * 4)) = Z.of_nat k.
Proof.
  intros Ha.
  assert (0 <= Zfloor (a * 4))%Z by (apply Zfloor_lub; lra).
  assert (Zfloor (a * 4) <= 4)%Z.
  { pose proof (Zfloor_bound (a * 4)) as [Hlo _]; apply le_IZR; lra. }
  exists (Z.to_nat (Zfloor (a * 4))); split; lia.
Qed.

(** The five symbols are pairwise different. *)
Lemma chars_injective (j k : nat) :
  (k < 5)%nat -> nth_error chars j = nth_error chars k -> j = k.
Proof.
  intros Hk H.
  do 5 (destruct k as [|k]; [do 5 (destruct j as [|j]; try discriminate H;
                                   try reflexivity);
                             destruct j; discriminate H|]).
  lia.
Qed.

(** X5. In every state the grid reaches, each of the cells it renders
    shows one of the five symbols of the palette (never [undefined]), with
    an opacity between 0.12 and 1, so that no cell is ever invisible, and a
    scale between 1 and 1.8. *)
Theorem rendered_cells_are_visible (evs : list (option RRect * Input R)) :
  Forall
    (fun cell =>
       (exists symbol, char cell = Some symbol /\ In symbol chars)
       /\ 0.12 <= opacity cell <= 1
       /\ 1 <= scale cell <= 1.8)
    (renderCells (run evs initial)).
Proof.
  pose proof (grid_inv_run evs grid_inv_initial) as [Hlen Hunit _].
  apply Forall_forall; intros cell Hcell.
  apply in_map_iff in Hcell as (i & <- & Hi).
  apply in_seq in Hi.
  assert (Ha : 0 <= nth i (activations (run evs initial)) 0 <= 1).
  { rewrite Forall_forall in Hunit; apply Hunit, nth_In; lia. }
  rewrite char_of_activation, opacity_of_activation, scale_of_activation.
  repeat split; try lra.
  destruct (symbol_position Ha) as (k & Hk & ->).
  rewrite Nat2Z.id.
  destruct (nth_error chars k) as [symbol|] eqn:Hnth.
  - exists symbol; split; [reflexivity|eapply nth_error_In, Hnth].
  - apply nth_error_None in Hnth; rewrite length_chars in Hnth; lia.
Qed.

(** X6. Which symbol a non-negative activation [a] shows: the symbol at
    position [k] of the palette exactly when [k / 4 <= a < (k + 1) / 4].  So
    the sparsest symbol is shown below 1/4, and the densest one only from
    activation 1 on: within [0,1], only at 1 itself. *)
Theorem symbol_thresholds (activations : list R) (index k : nat) :
  0 <= nth index activations 0 ->
  (k < 5)%nat ->
  char (getCharAndStyle activations index) = nth_error chars k
  <-> INR k / 4 <= nth index activations 0 < (INR k + 1) / 4.
Proof.
  intros Ha Hk; rewrite char_of_activation.
  set (a := nth index activations 0) in *.
  assert (Hz : (0 <= Zfloor (a * 4))%Z) by (apply Zfloor_lub; lra).
  rewrite Z.max_r by exact Hz.
  rewrite INR_IZR_INZ.
  split.
  - intros H; apply chars_injective in H; [|exact Hk].
    pose proof (Zfloor_bound (a * 4)) as Hb.
    rewrite <- H, Z2Nat.id in * by exact Hz.
    lra.
  - intros H.
    rewrite (Zfloor_eq (Z.of_nat k) (a * 4)) by lra.
    now rewrite Nat2Z.id.
Qed.

(** Half-way activation shows the middle symbol. *)
Lemma symbol_thresholds_witness :
  0 <= nth 0 [0.5] 0
  /\ (2 < 5)%nat
  /\ (char (getCharAndStyle [0.5] 0) = nth_error chars 2
      <-> INR 2 / 4 <= nth 0 [0.5] 0 < (INR 2 + 1) / 4).
Proof.
  assert (Ha : 0 <= nth 0 [0.5] 0) by (cbn; lra).
  assert (Hk : (2 < 5)%nat) by lia.
  split; [exact Ha|].
  split; [exact Hk|].
  exact (symbol_thresholds [0.5] 0 Ha Hk).
Defined.

(** X7. A cell with a larger activation is never shown with a sparser
    symbol, a lower opacity or a smaller scale than a cell with a smaller
    activation. *)
Theorem brighter_is_not_sparser (activations1 activations2 : list R)
    (index1 index2 : nat) :
  nth index1 activations1 0 <= nth index2 activations2 0 ->
  let cell1 := getCharAndStyle activations1 index1 in
  let cell2 := getCharAndStyle activations2 index2 in
  opacity cell1 <= opacity cell2
  /\ scale cell1 <= scale cell2
  /\ exists k1 k2,
       (k1 <= k2)%nat
       /\ char cell1 = nth_error chars k1
       /\ char cell2 = nth_error chars k2.
Proof.
  intros Hle cell1 cell2; unfold cell1, cell2.
  rewrite !opacity_of_activation, !scale_of_activation, !char_of_activation.
  repeat split; try lra.
  eexists _, _; split; [|split; reflexivity].
  apply Z2Nat.inj_le; try lia.
  apply Z.max_le_compat_l, Zfloor_le; lra.
Qed.

(** Two cells of one grid. *)
Lemma brighter_is_not_sparser_witness :
  nth 0 [0.25; 1] 0 <= nth 1 [0.25; 1] 0
  /\ opacity (getCharAndStyle [0.25; 1] 0)
     <= opacity (getCharAndStyle [0.25; 1] 1).
Proof.
  assert (H : nth 0 [0.25; 1] 0 <= nth 1 [0.25; 1] 0) by (cbn; lra).
  split; [exact H|].
  exact (proj1 (brighter_is_not_sparser [0.25; 1] [0.25; 1] 0 1 H)).
Defined.

(** * The field under a resting pointer, and the life of a ripple *)



Lemma ltb_opacity_age (n : nat) :
  (1 - 0.02 * INR n >? of_Z 0)%num = (n <? 50)%nat.
Proof.
  destruct (n <? 50)%nat eqn:Hn.
  - apply Nat.ltb_lt, lt_INR in Hn.
    replace (INR 50) with 50 in Hn by (cbn; lra).
    apply ltb_lt; cbn; lra.
  - apply Nat.ltb_ge, le_INR in Hn.
    replace (INR 50) with 50 in Hn by (cbn; lra).
    apply ltb_ge; cbn; lra.
Qed.

(** X9. How long a ripple lives: a click on a container of width [w] and
    height [h], followed by [k >= 1] frames, leaves its ripple in the list
    (behind the older ones that are left, with radius [12 k] and opacity
    [1 - 0.02 k]) exactly when [k < 50] and [12 k < max(w, h)].  A ripple
    is therefore seen for at most 49 frames, and for none at all on a
    container that is no larger than 12 pixels. *)
Theorem ripple_lifetime (c c' : RRect) (e : MouseEvent.t R) (st : RGrid)
    (k : nat) :
  let x := MouseEvent.clientX e - Rect.left c in
  let y := MouseEvent.clientY e - Rect.top c in
  let maxRadius := Rmax (Rect.width c) (Rect.height c) in
  ripplesRef (run ((Some c, Click e) :: repeat (Some c', Frame) (S k)) st)
  = Nat.iter (S k) updateRipples (ripplesRef st)
    ++ (if (S k <? 50)%nat && (12 * INR (S k) <? maxRadius)%num
        then [Ripple.mk x y (12 * INR (S k)) maxRadius (1 - 0.02 * INR (S k))]
        else []).
Proof.
  intros x y maxRadius.
  rewrite run_cons, ripplesRef_frames.
  cbn [react snd fst handleClick ripplesRef].
  rewrite iter_updateRipples_app, iter_updateRipples_single, aged_fields.
  cbn [Ripple.x Ripple.y Ripple.radius Ripple.maxRadius Ripple.opacity
       num_sub Math_max of_Z R_Number].
  fold x y maxRadius.
  replace (0 + 12 * INR (S k)) with (12 * INR (S k)) by lra.
  unfold stillActive; cbn [Ripple.radius Ripple.maxRadius Ripple.opacity].
  rewrite ltb_opacity_age.
  reflexivity.
Qed.

(** X10. How strong the ripple stimulus can be: with every ripple's
    opacity between 0 and [b], the stimulus at any cell is between 0 and
    [b]; a cell whose distance to a ripple's origin is the ripple's radius
    gets at least that ripple's opacity; and a cell that is 60 or more
    away from every ring gets none. *)
Theorem ripple_stimulus_bounds (cx cy b : R) (ripples : list RRipple) :
  0 <= b ->
  Forall (fun r => 0 <= Ripple.opacity r <= b) ripples ->
  0 <= rippleActivationAt ripples cx cy <= b
  /\ (forall r, In r ripples ->
        Spec.euclideanDistance cx cy (Ripple.x r) (Ripple.y r)
        = Ripple.radius r ->
        Ripple.opacity r <= rippleActivationAt ripples cx cy)
  /\ ((forall r, In r ripples -> 60 <= Spec.distanceFromRing cx cy r) ->
      rippleActivationAt ripples cx cy = 0).
Proof.
  intros Hb Hall; rewrite rippleActivationAt_max.
  split; [|split].
  - unfold maxContribution.
    induction Hall as [|r rs [Hlo Hhi] _ IH]; cbn [map fold_right]; [lra|].
    apply Rmax_between; [|exact IH].
    unfold Spec.contribution.
    destruct (Rlt_dec _ 60) as [Hring|_]; [|lra].
    pose proof (Rabs_pos (Spec.euclideanDistance cx cy (Ripple.x r)
                            (Ripple.y r) - Ripple.radius r)) as Hd.
    fold (Spec.distanceFromRing cx cy r) in Hd.
    split; nra.
  - intros r Hin Hon.
    etransitivity; [|apply (maxContribution_upper cx cy ripples r Hin)].
    unfold Spec.contribution, Spec.distanceFromRing.
    rewrite Hon, Rminus_diag, Rabs_R0.
    destruct (Rlt_dec 0 60); lra.
  - intros Hfar; unfold maxContribution.
    induction ripples as [|r rs IH]; [reflexivity|].
    cbn [map fold_right].
    inversion Hall as [|? ? _ Hrs]; subst.
    rewrite IH; [|exact Hrs|intros r' Hr'; apply Hfar; now right].
    unfold Spec.contribution.
    specialize (Hfar r (or_introl eq_refl)).
    destruct (Rlt_dec _ 60); [lra|].
    apply Rmax_left; lra.
Qed.

(** One ring of radius 12 around the origin; the cell centre (0, 12) is
    on it. *)
Lemma ripple_stimulus_bounds_witness :
  0 <= 0.98
  /\ Forall (fun r : RRipple => 0 <= Ripple.opacity r <= 0.98)
       [Ripple.mk 0 0 12 280 0.98]
  /\ 0 <= rippleActivationAt [Ripple.mk 0 0 12 280 0.98] 0 12 <= 0.98.
Proof.
  assert (Hb : 0 <= 0.98) by lra.
  assert (Hall : Forall (fun r : RRipple => 0 <= Ripple.opacity r <= 0.98)
                   [Ripple.mk 0 0 12 280 0.98])
    by (repeat constructor; cbn; lra).
  split; [exact Hb|].
  split; [exact Hall|].
  exact (proj1 (ripple_stimulus_bounds 0 12 Hb Hall)).
Defined.

(** * The list of projects *)

(** The ids of the projects are pairwise different: a string equals at
    most one of them. *)
Lemma isActive_unique (st : PortfolioState) (p q : Project.t) :
  In p projects -> In q projects ->
  isActive st p = true -> isActive st q = true -> p = q.
Proof.
  unfold isActive; destruct (activeProject st) as [active|]; [|discriminate].
  intros Hp Hq Ep Eq.
  apply String.eqb_eq in Ep, Eq.
  assert (E : Project.id p = Project.id q) by congruence.
  clear Ep Eq.
  cbn in Hp, Hq.
  repeat (destruct Hp as [<-|Hp]; [|]); try contradiction;
    repeat (destruct Hq as [<-|Hq]; [|]); try contradiction;
    try reflexivity; discriminate E.
Qed.

Lemma isExpanded_renderProject (st : PortfolioState) (p : Project.t) :
  isExpanded (renderProject st p) = isActive st p.
Proof.
  unfold isExpanded, renderProject; cbn [descriptionClass].
  destruct (isActive st p); reflexivity.
Qed.

(** X12. In the list of projects at most one row is unfolded at any
    time, whatever the pointer has entered and left: a row is unfolded
    exactly when its project's id is the active one, the ids are pairwise
    different, and leaving a row folds every row. *)
Theorem at_most_one_project_unfolded (evs : list PortfolioInput) :
  let st := fold_left portfolioReact evs portfolioStart in
  (length (filter isExpanded (renderProjects st)) <= 1)%nat
  /\ (forall row, In row (renderProjects st) ->
        (isExpanded row = true <-> activeProject st = Some (rowKey row)))
  /\ (forall p,
        filter isExpanded
          (renderProjects (portfolioReact st (MouseLeave p))) = [])
  /\ (forall p, In p projects ->
        filter isExpanded
          (renderProjects (portfolioReact st (MouseEnter p)))
        = [renderProject (portfolioReact st (MouseEnter p)) p]).
Proof.
  intros st; generalize st; clear st evs; intros st.
  assert (Hfilter : forall st',
    filter isExpanded (renderProjects st')
    = map (renderProject st') (filter (isActive st') projects)).
  { intros st'; unfold renderProjects.
    induction projects as [|p ps IH]; [reflexivity|].
    cbn [map filter]; rewrite isExpanded_renderProject, IH.
    destruct (isActive st' p); reflexivity. }
  assert (Hone : forall st',
    (length (filter (isActive st') projects) <= 1)%nat).
  { intros st'.
    destruct (filter (isActive st') projects) as [|p [|q rest]] eqn:Hf;
      cbn; try lia.
    assert (Hp : In p (filter (isActive st') projects))
      by (rewrite Hf; now left).
    assert (Hq : In q (filter (isActive st') projects))
      by (rewrite Hf; right; now left).
    apply filter_In in Hp as [Hp Ap], Hq as [Hq Aq].
    pose proof (@isActive_unique st' p q Hp Hq Ap Aq) as ->.
    assert (Hnd : NoDup (filter (isActive st') projects)).
    { apply NoDup_filter.
      unfold projects; repeat constructor; cbn; intuition discriminate. }
    rewrite Hf in Hnd; inversion Hnd as [|? ? Hnot _]; subst.
    exfalso; apply Hnot; now left. }
  split; [rewrite Hfilter, length_map; apply Hone|].
  split.
  { intros row Hrow.
    apply in_map_iff in Hrow as (p & <- & Hp).
    rewrite isExpanded_renderProject; cbn [rowKey renderProject].
    unfold isActive; destruct (activeProject st) as [active|].
    - rewrite String.eqb_eq; split; congruence.
    - split; discriminate. }
  split.
  { intros p; rewrite Hfilter; reflexivity. }
  intros p Hp; rewrite Hfilter.
  set (st' := portfolioReact st (MouseEnter p)).
  assert (Ap : isActive st' p = true) by (cbn; apply String.eqb_refl).
  assert (Hin : In p (filter (isActive st') projects))
    by (apply filter_In; now split).
  specialize (Hone st').
  destruct (filter (isActive st') projects) as [|q [|q' rest]];
    [contradiction| |cbn in Hone; lia].
  destruct Hin as [->|[]]; reflexivity.
Qed.

(** * The component on binary64: worked examples

    The same definitions, evaluated on the doubles the code computes with.
    The literals are written in hexadecimal, which is exact. *)

Module Examples64.

Import PrimFloat.

(** The decimal constants of the code, as the doubles nearest to them:
    0.92, 0.02, 0.12, 0.88 and 0.8. *)
Example binary64_constants :
  (decay : float, rippleFade : float, decimal 12 2 : float,
   decimal 88 2 : float, decimal 8 1 : float)
  = (0x1.d70a3d70a3d71p-1, 0x1.47ae147ae147bp-6, 0x1.eb851eb851eb8p-4,
     0x1.c28f5c28f5c29p-1, 0x1.999999999999ap-1)%float.
Proof. vm_compute. reflexivity. Qed.

(** Surface of 280 by 180 pixels (cells of 10 by 10), pointer at (5, 5),
    the centre of cell 0: after one frame the cell has activation 1 and is
    shown as the densest symbol, with opacity 1 and scale 1.8. *)
Example binary64_pointer_on_cell :
  let st := run [(Run64.surface 280 180, MouseMove (Run64.at_client 5 5));
                 (Run64.surface 280 180, Frame)] Run64.start in
  Run64.cell 0 st = 0x1p+0%float
  /\ getCharAndStyle (activations st) 0
     = mkStyle (nth_error chars 4) 0x1p+0%float 0x1.ccccccccccccdp+0%float.
Proof. vm_compute. split; reflexivity. Qed.

(** A click at the centre of that surface, then five frames: the ripple
    has radius 60 and maxRadius 280; its opacity, 1 less five times 0.02,
    is the double just below 0.9. *)
Example binary64_click_after_5_frames :
  ripplesRef
    (run ((Run64.surface 280 180, Click (Run64.at_client 140 90))
          :: Run64.frames (Run64.surface 280 180) 5) Run64.start)
  = [Ripple.mk 0x1.18p+7 0x1.68p+6 0x1.ep+5 0x1.18p+8
       0x1.cccccccccccccp-1]%float
  /\ (decimal 9 1 : float) = 0x1.ccccccccccccdp-1%float.
Proof. vm_compute. split; reflexivity. Qed.

(** On a surface of 2800 by 1800 pixels a ripple is still there after 49
    frames and gone after 50: fifty subtractions of 0.02 from 1 end below
    0 on binary64. *)
Example binary64_ripple_49_50_frames :
  ripplesRef
    (run ((Run64.surface 2800 1800, Click (Run64.at_client 140 90))
          :: Run64.frames (Run64.surface 2800 1800) 49) Run64.start)
  = [Ripple.mk 0x1.18p+7 0x1.68p+6 0x1.26p+9 0x1.5ep+11
       0x1.47ae147ae13c9p-6]%float
  /\ ripplesRef
       (run ((Run64.surface 2800 1800, Click (Run64.at_client 140 90))
             :: Run64.frames (Run64.surface 2800 1800) 50) Run64.start)
     = []
  /\ Nat.iter 50 (fun a : float => a - rippleFade)%num (of_Z 1)
     = (-0x1.64p-51)%float.
Proof. vm_compute. repeat split; reflexivity. Qed.

(** The pointer above the surface, at (5, -7): cell 0 is lit to 0.92. *)
Example binary64_pointer_above_surface :
  Run64.cell 0
    (run [(Run64.surface 280 180, MouseMove (Run64.at_client 5 (-7)));
          (Run64.surface 280 180, Frame)] Run64.start)
  = 0x1.d70a3d70a3d71p-1%float.
Proof. vm_compute. reflexivity. Qed.

(** A container of width 0 and height 0: the frames run, cell 0 goes to 1
    under the pointer and decays to 0.92 once the pointer is away. *)
Example binary64_zero_size_surface :
  Run64.cell 0
    (run [(Run64.surface 0 0, MouseMove (Run64.at_client 0 0));
          (Run64.surface 0 0, Frame)] Run64.start)
  = 0x1p+0%float
  /\ Run64.cell 0
       (run [(Run64.surface 0 0, MouseMove (Run64.at_client 0 0));
             (Run64.surface 0 0, Frame);
             (Run64.surface 0 0, MouseMove (Run64.at_client 1000 1000));
             (Run64.surface 0 0, Frame)] Run64.start)
     = 0x1.d70a3d70a3d71p-1%float.
Proof. vm_compute. split; reflexivity. Qed.

(** Where rounding shows: on binary64 the decay of an activation of 1 does
    not go on for ever.  After 9000 frames it has arrived at six times the
    smallest positive double, 0.92 times which rounds to itself: the value
    stays positive and stops decreasing. *)
Example binary64_decay_stalls :
  Run64.fade (90 * 100) (of_Z 1) = 0x0.0000000000006p-1022%float
  /\ Run64.fade (90 * 100 + 1) (of_Z 1) = 0x0.0000000000006p-1022%float.
Proof. vm_compute. split; reflexivity. Qed.

(** Three frames whose updates are still waiting when a click at (5, 5)
    comes, then React's render: the waiting updates read the ripple of the
    click, so that cell 0 (centred on the click) is at 1 and its
    neighbours 1 and 28 (10 pixels away) at 1 - 10/60.  With a render right
    after each frame the updates have run before the click, and the cells
    are at 0 until the next frame. *)
Example binary64_click_before_render :
  let c := Run64.surface 280 180 in
  let click := Click (Run64.at_client 5 5) in
  let late :=
    runLive [Browser (c, Frame); Browser (c, Frame); Browser (c, Frame);
             Browser (c, click); Render] initialLive in
  let early :=
    runLive [Browser (c, Frame); Render; Browser (c, Frame); Render;
             Browser (c, Frame); Render; Browser (c, click); Render]
      initialLive in
  map (fun i => Run64.cell i (shown late)) [0; 1; 28]%nat
  = [1; 0x1.aaaaaaaaaaaabp-1; 0x1.aaaaaaaaaaaabp-1]%float
  /\ map (fun i => Run64.cell i (shown early)) [0; 1; 28]%nat
     = [0; 0; 0]%float
  /\ shown early
     = run [(c, Frame); (c, Frame); (c, Frame); (c, click)] Run64.start.
Proof. vm_compute. repeat split; reflexivity. Qed.

End Examples64.
